(** * requests-ratelimiter: the rate-limiting mixin of
      [requests_ratelimiter/requests_ratelimiter.py]

    A shallow embedding of [LimiterMixin] ([__init__], [send],
    [_bucket_name], [_fill_bucket]) and the properties its specification
    states about it.

    Conventions of the embedding.
    - Python integers are [Z].  The [per_*] and [burst] parameters and the
      timestamps are annotated [float] in the source; the embedding takes
      them at integer values (a limit has to be an [int] anyway for
      [range(rate.limit - item_count)] to run), so no rounding is modelled.
    - The mutable objects the mixin works on (the limiter with its bucket
      group, the transport, the logger) are threaded explicitly: every
      operation takes the state before and returns the state after.
    - A raised exception is a left injection [inl e]; effects that
      happened before the raise are kept in the returned state.
    - The collaborators the module imports ([pyrate_limiter], the
      transport behind [super().send], [urllib.parse.urlparse], [uuid4])
      are not part of this repository.  They are parameters of the
      embedding; small reference implementations follow the interface the
      specification gives for them and are used to run the model. *)

From Stdlib Require Import ZArith List Lia Bool Ascii Sorted.
From stdpp Require Import base option list strings gmap fin_maps.

Open Scope Z_scope.

(** ** Rate specification *)

(** Modelled from the spec: the constants of [pyrate_limiter.Duration],
    which is not part of this repository: the lengths in seconds of the
    second, minute, hour, day and month (30 days) behind the per-second to
    per-month parameters. *)
Module Duration.
Definition SECOND : Z := 1.
Definition MINUTE : Z := 60.
Definition HOUR : Z := 3600.
Definition DAY : Z := 3600 * 24.
Definition MONTH : Z := 3600 * 24 * 30.
End Duration.

(** Modelled from the spec: [pyrate_limiter.RequestRate(limit, interval)],
    not part of this repository: a (limit: count, interval: duration)
    pair of the rate specification. *)
Record RequestRate : Type := mkRequestRate {
  limit : Z;
  interval : Z
}.

(** A Python [dict] with integer keys, as the list of its items in
    insertion order.  [d[k] = v] replaces the value of an existing key in
    place (the key keeps its position) and appends a new key at the
    end. *)
Fixpoint dict_setitem (k v : Z) (d : list (Z * Z)) : list (Z * Z) :=
  match d with
  | [] => [(k, v)]
  | (k', v') :: d' =>
      if k =? k' then (k', v) :: d' else (k', v') :: dict_setitem k v d'
  end.

(** A dict display [{k1: v1, k2: v2, ...}]: the entries are inserted from
    left to right. *)
Definition dict_display (entries : list (Z * Z)) : list (Z * Z) :=
  fold_left (fun d kv => dict_setitem (fst kv) (snd kv) d) entries [].

(** Truth value of a Python number: [if limit]. *)
Definition truthy (n : Z) : bool := negb (n =? 0).

(** The list comprehension at the head of [__init__]:
    [[RequestRate(limit, interval) for interval, limit in {...}.items() if limit]]. *)
Definition rates_of_params
    (per_second per_minute per_hour per_day per_month burst : Z)
    : list RequestRate :=
  map (fun il => mkRequestRate (snd il) (fst il))
    (List.filter (fun il => truthy (snd il))
       (dict_display
          [ (Duration.SECOND * burst, per_second * burst);
            (Duration.MINUTE, per_minute);
            (Duration.HOUR, per_hour);
            (Duration.DAY, per_day);
            (Duration.MONTH, per_month) ])).

(** ** Requests, responses, exceptions *)

(** Modelled from the spec: [requests.PreparedRequest], opaque to the
    mixin but for the target [url] it reads. *)
Record PreparedRequest : Type := mkPreparedRequest {
  url : string;
  body : string
}.

(** Modelled from the spec: [requests.Response], opaque to the mixin but
    for the [status_code] it reads. *)
Record Response : Type := mkResponse {
  status_code : Z;
  content : string
}.

(** The [**kwargs] of [send], forwarded to the transport as they are. *)
Abbreviation Kwargs := (list (string * string)).

(** Modelled from the spec: the result of [urllib.parse.urlparse], of
    which the mixin reads the network location [netloc]. *)
Record ParseResult : Type := mkParseResult {
  scheme : string;
  netloc : string;
  path : string
}.

(** Exceptions that can leave [send]. *)
Inductive Exception : Type :=
| BucketFullException (identity : string) (rate : RequestRate) (remaining_time : Z)
| KeyError (key : string)
| IndexError
| OtherError (name : string).

(** ** Buckets and the limiter *)

(** Modelled from the spec: a bucket of the limiter collaborator
    ([pyrate_limiter.bucket.AbstractBucket], not part of this repository).
    Section 6 gives its interface: [record_event(timestamp)] and
    [count_events_since(timestamp) -> (count, ...)]; the glossary calls it
    a per-key counter tracking recent request timestamps.  A bucket is the
    list of its recorded timestamps, oldest first. *)
Abbreviation Bucket := (list Z).

(** [bucket.put(item)]: record one event. *)
Definition put (bucket : Bucket) (item : Z) : Bucket := bucket ++ [item].

(** [bucket.inspect_expired_items(time)]: the number of recorded events
    later than [time], and how long until the oldest of them leaves the
    window ([0] when there is none). *)
Definition inspect_expired_items (bucket : Bucket) (time : Z) : Z * Z :=
  let unexpired := List.filter (fun item => time <? item) bucket in
  (Z.of_nat (length unexpired),
   match unexpired with
   | [] => 0
   | item :: _ => item - time
   end).

Inductive BucketClass : Type := MemoryQueueBucket | SQLiteBucket | RedisBucket.

Definition BucketClass_eqb (a b : BucketClass) : bool :=
  match a, b with
  | MemoryQueueBucket, MemoryQueueBucket => true
  | SQLiteBucket, SQLiteBucket => true
  | RedisBucket, RedisBucket => true
  | _, _ => false
  end.

(** A time source handed to the limiter: [time.time], or a callable of
    the caller. *)
Inductive TimeFunction : Type := time | custom_time (name : string).

(** Modelled from the spec: the limiter collaborator
    ([pyrate_limiter.Limiter], not part of this repository): its rates,
    its bucket group (a mapping from bucket key to bucket, entries created
    on first use) and its time source.  [clock] is the value the next
    call of [limiter.time_function()] returns. *)
Record Limiter : Type := mkLimiter {
  _rates : list RequestRate;
  bucket_class : BucketClass;
  time_function_arg : option TimeFunction;
  bucket_group : gmap string (list Z);
  clock : Z
}.

(** [limiter.time_function()]. *)
Definition time_function (l : Limiter) : Z := clock l.

(** Time passing while the caller is blocked (a sleep, the network). *)
Definition elapse (dt : Z) (l : Limiter) : Limiter :=
  {| _rates := _rates l; bucket_class := bucket_class l;
     time_function_arg := time_function_arg l;
     bucket_group := bucket_group l; clock := clock l + dt |}.

(** [limiter.bucket_group[key]] is mutated in place by [bucket.put]. *)
Definition set_bucket (key : string) (bucket : Bucket) (l : Limiter) : Limiter :=
  {| _rates := _rates l; bucket_class := bucket_class l;
     time_function_arg := time_function_arg l;
     bucket_group := <[key := bucket]> (bucket_group l); clock := clock l |}.

(** Modelled from the spec: [Limiter(rates..., bucket_class=..., time_function=...)],
    a fresh limiter whose bucket group is empty; [now] is the reading of
    its time source at construction. *)
Definition new_Limiter (rates : list RequestRate) (bucket_class : BucketClass)
    (time_function : option TimeFunction) (now : Z) : Limiter :=
  {| _rates := rates; bucket_class := bucket_class;
     time_function_arg := time_function;
     bucket_group := ∅; clock := now |}.

(** ** The mixin *)

(** The attributes [__init__] sets on [self], apart from [self.limiter],
    which is mutable and lives in the [World]. *)
Record LimiterMixin : Type := mkLimiterMixin {
  limit_statuses : list Z;
  max_delay : option Z;
  per_host : bool;
  _default_bucket : string
}.

(** What a call can change: the limiter, the requests handed to the
    transport so far (oldest first), and the records emitted on the
    module's logger. *)
Record World : Type := mkWorld {
  limiter : Limiter;
  wire : list PreparedRequest;
  log : list string
}.

(** [LimiterMixin.__init__].  [limiter] is the optional pre-built limiter;
    [uuid] is the value of [str(uuid4())] drawn by this call and [now] the
    reading of the time source when a limiter is built.  The keyword
    arguments passed along to the superclass play no part here. *)
Definition __init__
    (per_second per_minute per_hour per_day per_month burst : Z)
    (bucket_class : BucketClass) (time_function : option TimeFunction)
    (limiter : option Limiter) (max_delay : option Z) (per_host : bool)
    (limit_statuses : list Z) (uuid : string) (now : Z)
    : LimiterMixin * Limiter :=
  let rates :=
    rates_of_params per_second per_minute per_hour per_day per_month burst in
  let time_function :=
    if negb (BucketClass_eqb bucket_class MemoryQueueBucket)
       && negb (bool_decide (is_Some time_function))
    then Some time else time_function in
  let limiter :=
    match limiter with
    | Some l => l
    | None => new_Limiter rates bucket_class time_function now
    end in
  ({| limit_statuses := limit_statuses; max_delay := max_delay;
      per_host := per_host; _default_bucket := uuid |},
   limiter).

(** [x in xs] on a tuple or list of integers. *)
Definition py_in (x : Z) (xs : list Z) : bool := existsb (Z.eqb x) xs.

(** [range(n)]: empty when [n <= 0]. *)
Definition range (n : Z) : list Z := map Z.of_nat (seq 0 (Z.to_nat n)).

(** The record [_fill_bucket] emits through [logger.info]. *)
Definition fill_message (request : PreparedRequest) : string :=
  "Rate limit exceeded for " +:+ url request +:+ "; filling limiter bucket".

Section Mixin.

(** [urllib.parse.urlparse]. *)
Variable urlparse : string -> ParseResult.

(** Entering [self.limiter.ratelimit(key, delay=True, max_delay=...)]:
    [None] when capacity was acquired (after waiting, if need be), or the
    exception raised; the limiter after the call comes with it.  Leaving
    the block does nothing and lets exceptions through. *)
Variable ratelimit : string -> option Z -> Limiter -> option Exception * Limiter.

(** [super().send(request, **kwargs)], given the requests already sent:
    the response or the exception raised, and the time the call took. *)
Variable super_send :
  list PreparedRequest -> PreparedRequest -> Kwargs -> (Exception + Response) * Z.

(** [LimiterMixin._bucket_name]. *)
Definition _bucket_name (self : LimiterMixin) (request : PreparedRequest) : string :=
  if per_host self then netloc (urlparse (url request)) else _default_bucket self.

(** [LimiterMixin._fill_bucket]. *)
Definition _fill_bucket (self : LimiterMixin) (request : PreparedRequest)
    (w : World) : (Exception + unit) * World :=
  let w := {| limiter := limiter w; wire := wire w;
              log := log w ++ [fill_message request] |} in
  let key := _bucket_name self request in
  match bucket_group (limiter w) !! key with
  | None => (inl (KeyError key), w)
  | Some bucket =>
      let now := time_function (limiter w) in
      match _rates (limiter w) with
      | [] => (inl IndexError, w)
      | rate :: _ =>
          let item_count := fst (inspect_expired_items bucket (now - interval rate)) in
          let bucket :=
            fold_left (fun b _ => put b now) (range (limit rate - item_count)) bucket in
          (inr tt,
           {| limiter := set_bucket key bucket (limiter w); wire := wire w;
              log := log w |})
      end
  end.

(** [LimiterMixin.send]. *)
Definition send (self : LimiterMixin) (request : PreparedRequest)
    (kwargs : Kwargs) (w : World) : (Exception + Response) * World :=
  match ratelimit (_bucket_name self request) (max_delay self) (limiter w) with
  | (Some e, l) => (inl e, {| limiter := l; wire := wire w; log := log w |})
  | (None, l) =>
      let '(outcome, dt) := super_send (wire w) request kwargs in
      let w := {| limiter := elapse dt l; wire := wire w ++ [request];
                  log := log w |} in
      match outcome with
      | inl e => (inl e, w)
      | inr response =>
          if py_in (status_code response) (limit_statuses self)
          then match _fill_bucket self request w with
               | (inl e, w) => (inl e, w)
               | (inr _, w) => (inr response, w)
               end
          else (inr response, w)
      end
  end.

(** A caller issuing one [send] after the other; an exception of one call
    does not stop the next. *)
Fixpoint run_sends (self : LimiterMixin)
    (requests : list (PreparedRequest * Kwargs)) (w : World)
    : list (Exception + Response) * World :=
  match requests with
  | [] => ([], w)
  | (request, kwargs) :: rest =>
      let '(r, w) := send self request kwargs w in
      let '(rs, w) := run_sends self rest w in
      (r :: rs, w)
  end.

End Mixin.

(** ** Reference collaborators

    Executable stand-ins for the collaborators, used to run the model on
    concrete inputs. *)

Fixpoint split_at_colon (s : string) : option (string * string) :=
  match s with
  | EmptyString => None
  | String c s' =>
      if Ascii.eqb c ":"%char then Some (EmptyString, s')
      else match split_at_colon s' with
           | Some (a, b) => Some (String c a, b)
           | None => None
           end
  end.

Definition is_delim (c : ascii) : bool :=
  Ascii.eqb c "/"%char || Ascii.eqb c "?"%char || Ascii.eqb c "#"%char.

Fixpoint span_netloc (s : string) : string * string :=
  match s with
  | EmptyString => (EmptyString, EmptyString)
  | String c s' =>
      if is_delim c then (EmptyString, s)
      else let '(a, b) := span_netloc s' in (String c a, b)
  end.

(** Modelled from the spec: the network location (host[:port]) of a URL,
    the part between [//] and the next [/], [?] or [#]. *)
Definition ref_urlparse (u : string) : ParseResult :=
  let '(sch, rest) :=
    match split_at_colon u with
    | Some (a, b) => (a, b)
    | None => (EmptyString, u)
    end in
  match rest with
  | String "/"%char (String "/"%char r) =>
      let '(n, p) := span_netloc r in mkParseResult sch n p
  | _ => mkParseResult sch EmptyString rest
  end.

(** The first rate whose window is full, if any. *)
Definition full_rate (bucket : Bucket) (now : Z) (rates : list RequestRate)
    : option RequestRate :=
  List.find
    (fun rate =>
       limit rate <=? fst (inspect_expired_items bucket (now - interval rate)))
    rates.

(** Modelled from the spec: [acquire(key, wait=true, max_wait) -> success|BucketFull]
    of section 6.  Capacity is there when every rate has fewer events in
    its window than its limit; the acquisition is then recorded at the
    current time.  Otherwise the call waits until the oldest event of the
    full window has expired and tries again, unless that wait is longer
    than [max_delay]: then it raises.  [fuel] bounds the number of waits;
    running out of it is reported as a full bucket too. *)
Fixpoint ref_acquire (fuel : nat) (key : string) (max_delay : option Z)
    (l : Limiter) : option Exception * Limiter :=
  let bucket := default [] (bucket_group l !! key) in
  let now := time_function l in
  match full_rate bucket now (_rates l) with
  | None => (None, set_bucket key (put bucket now) l)
  | Some rate =>
      let remaining := snd (inspect_expired_items bucket (now - interval rate)) in
      let exceeded :=
        match max_delay with
        | Some m => m <? remaining
        | None => false
        end in
      if exceeded then (Some (BucketFullException key rate remaining), l)
      else match fuel with
           | O => (Some (BucketFullException key rate remaining), l)
           | S fuel => ref_acquire fuel key max_delay (elapse remaining l)
           end
  end.

Definition ref_ratelimit : string -> option Z -> Limiter -> option Exception * Limiter :=
  ref_acquire 64.

(** A transport that answers every request with the same status after
    [dt] units of time. *)
Definition mock_transport (status dt : Z)
    : list PreparedRequest -> PreparedRequest -> Kwargs -> (Exception + Response) * Z :=
  fun _ _ _ => (inr (mkResponse status "body"), dt).

(** A transport whose [send] raises. *)
Definition broken_transport (e : Exception) (dt : Z)
    : list PreparedRequest -> PreparedRequest -> Kwargs -> (Exception + Response) * Z :=
  fun _ _ _ => (inl e, dt).

(** ** Notions used by the statements *)

(** The events of a bucket inside the trailing window of length
    [interval] that ends at [now]. *)
Definition events_in_window (bucket : Bucket) (now interval : Z) : list Z :=
  List.filter (fun item => now - interval <? item) bucket.

(** No bucket of the limiter holds more events, in the trailing window of
    the first rate ending at the current time, than that rate allows. *)
Definition capped (l : Limiter) : Prop :=
  forall rate rest key bucket,
    _rates l = rate :: rest ->
    bucket_group l !! key = Some bucket ->
    Z.of_nat (length (events_in_window bucket (time_function l) (interval rate)))
    <= limit rate.

(** What the mixin relies on from the limiter it is given: acquiring
    leaves the rates alone, time does not run backwards, and the limiter
    by itself never takes a bucket past the first rate's limit. *)
Definition limiter_contract
    (ratelimit : string -> option Z -> Limiter -> option Exception * Limiter) : Prop :=
  forall key max_delay l r l',
    ratelimit key max_delay l = (r, l') ->
    _rates l' = _rates l /\ clock l <= clock l' /\ (capped l -> capped l').

(** The world in which the transport's answer is looked at: capacity was
    acquired, the request went out and [dt] has passed. *)
Definition after_transport (w : World) (l : Limiter) (request : PreparedRequest)
    (dt : Z) : World :=
  {| limiter := elapse dt l; wire := wire w ++ [request]; log := log w |}.

(** The entry each convenience parameter stands for. *)
Definition entry_per_second (per_second burst : Z) : RequestRate :=
  mkRequestRate (per_second * burst) (Duration.SECOND * burst).
Definition entry_per_minute (per_minute : Z) : RequestRate :=
  mkRequestRate per_minute Duration.MINUTE.
Definition entry_per_hour (per_hour : Z) : RequestRate :=
  mkRequestRate per_hour Duration.HOUR.
Definition entry_per_day (per_day : Z) : RequestRate :=
  mkRequestRate per_day Duration.DAY.
Definition entry_per_month (per_month : Z) : RequestRate :=
  mkRequestRate per_month Duration.MONTH.


(** The burst-scaled per-second interval is none of the fixed ones. *)
Definition no_interval_clash (burst : Z) : Prop :=
  Duration.SECOND * burst <> Duration.MINUTE /\
  Duration.SECOND * burst <> Duration.HOUR /\
  Duration.SECOND * burst <> Duration.DAY /\
  Duration.SECOND * burst <> Duration.MONTH.

(** Rates ordered ascending by interval. *)
Definition ascending (rates : list RequestRate) : Prop :=
  forall i j ri rj,
    (i <= j)%nat -> rates !! i = Some ri -> rates !! j = Some rj ->
    interval ri <= interval rj.

Definition example_request (u : string) : PreparedRequest := mkPreparedRequest u "".

Definition example_mixin (per_host : bool) (max_delay : option Z) : LimiterMixin :=
  {| limit_statuses := [429]; max_delay := max_delay; per_host := per_host;
     _default_bucket := "6f1c2a9e-3b7d-4c55-9e0a-1d2f3a4b5c6d" |}.

Definition example_limiter (rates : list RequestRate) (buckets : list (string * list Z))
    (now : Z) : Limiter :=
  {| _rates := rates; bucket_class := MemoryQueueBucket; time_function_arg := None;
     bucket_group := list_to_map buckets; clock := now |}.

Definition example_world (l : Limiter) : World :=
  {| limiter := l; wire := []; log := [] |}.

(** ** Keyword arguments passed along to the superclass *)

Section KeywordArguments.

(** Python values other than [None]; a value of a keyword argument is
    [None] or [Some v]. *)
Variable V : Type.

(** A dict with string keys, as its items in insertion order: [d[k] = v]. *)
Fixpoint kwargs_setitem (k : string) (v : option V)
    (d : list (string * option V)) : list (string * option V) :=
  match d with
  | [] => [(k, v)]
  | (k', v') :: d' =>
      if String.eqb k k' then (k', v) :: d'
      else (k', v') :: kwargs_setitem k v d'
  end.

(** A dict comprehension [{k: v for k, v in items}]: the items are
    inserted one after the other. *)
Definition dict_of_items (items : list (string * option V))
    : list (string * option V) :=
  fold_left (fun d kv => kwargs_setitem (fst kv) (snd kv) d) items [].

(** [v is not None]. *)
Definition is_not_None (v : option V) : bool :=
  match v with
  | Some _ => true
  | None => false
  end.

(** [k in sig_params] on a list of names. *)
Definition name_in (k : string) (names : list string) : bool :=
  existsb (String.eqb k) names.

(** [get_valid_kwargs(func, kwargs)].  [sig_params] is
    [list(signature(func).parameters)], the names of the parameters of
    [func]. *)
Definition get_valid_kwargs (sig_params : list string)
    (kwargs : list (string * option V)) : list (string * option V) :=
  dict_of_items
    (List.filter (fun kv => name_in (fst kv) sig_params && is_not_None (snd kv))
       kwargs).

End KeywordArguments.

(** ** Further notions used by the statements *)

(** Acquiring for one key leaves the buckets of the other keys alone. *)
Definition limiter_frame
    (ratelimit : string -> option Z -> Limiter -> option Exception * Limiter) : Prop :=
  forall key max_delay l r l' key',
    ratelimit key max_delay l = (r, l') ->
    key' <> key ->
    bucket_group l' !! key' = bucket_group l !! key'.

(** One rate has a shorter interval than another. *)
Definition shorter (a b : RequestRate) : Prop := interval a < interval b.

(** The number of events of a bucket in the trailing window of a rate. *)
Definition window_count (bucket : Bucket) (now : Z) (rate : RequestRate) : Z :=
  Z.of_nat (length (events_in_window bucket now (interval rate))).

(** [if limit], on a rate. *)
Definition nonzero_limit (rate : RequestRate) : bool := truthy (limit rate).

(** The entries of the four parameters whose interval is fixed. *)
Definition fixed_entries (per_minute per_hour per_day per_month : Z)
    : list RequestRate :=
  [ entry_per_minute per_minute; entry_per_hour per_hour;
    entry_per_day per_day; entry_per_month per_month ].

Definition example_kwargs : list (string * option string) :=
  [ ("max_retries", Some "3"); ("pool_block", None);
    ("verify", Some "False"); ("pool_maxsize", Some "20") ].

(** The parameters of [HTTPAdapter.__init__]. *)
Definition adapter_params : list string :=
  [ "pool_connections"; "pool_maxsize"; "max_retries"; "pool_block" ].

(** * Properties *)

(** ** Construction of the rates *)

Lemma truthy_true (n : Z) : truthy n = true <-> n <> 0.
Proof.
  unfold truthy. destruct (Z.eqb_spec n 0); simpl; split; intros; congruence.
Qed.

Lemma truthy_mul (n m : Z) : m <> 0 -> truthy (n * m) = truthy n.
Proof.
  intros Hm. unfold truthy. f_equal.
  destruct (Z.eqb_spec n 0) as [->|Hn]; [reflexivity|].
  apply Z.eqb_neq. nia.
Qed.

(** Without a clash of intervals the dict display keeps its five items. *)
Lemma dict_display_no_clash (k v pm ph pd pmo : Z) :
  k <> Duration.MINUTE -> k <> Duration.HOUR ->
  k <> Duration.DAY -> k <> Duration.MONTH ->
  dict_display
    [ (k, v); (Duration.MINUTE, pm); (Duration.HOUR, ph);
      (Duration.DAY, pd); (Duration.MONTH, pmo) ]
  = [ (k, v); (Duration.MINUTE, pm); (Duration.HOUR, ph);
      (Duration.DAY, pd); (Duration.MONTH, pmo) ].
Proof.
  intros H1 H2 H3 H4. unfold dict_display.
  assert (E1 : (Duration.MINUTE =? k) = false) by (apply Z.eqb_neq; congruence).
  assert (E2 : (Duration.HOUR =? k) = false) by (apply Z.eqb_neq; congruence).
  assert (E3 : (Duration.DAY =? k) = false) by (apply Z.eqb_neq; congruence).
  assert (E4 : (Duration.MONTH =? k) = false) by (apply Z.eqb_neq; congruence).
  cbn [fold_left dict_setitem fst snd].
  rewrite E1. cbn [dict_setitem]. rewrite E2.
  replace (Duration.HOUR =? Duration.MINUTE) with false by reflexivity.
  cbn [dict_setitem]. rewrite E3.
  replace (Duration.DAY =? Duration.MINUTE) with false by reflexivity.
  replace (Duration.DAY =? Duration.HOUR) with false by reflexivity.
  cbn [dict_setitem]. rewrite E4.
  replace (Duration.MONTH =? Duration.MINUTE) with false by reflexivity.
  replace (Duration.MONTH =? Duration.HOUR) with false by reflexivity.
  replace (Duration.MONTH =? Duration.DAY) with false by reflexivity.
  reflexivity.
Qed.

Lemma rates_no_clash (ps pm ph pd pmo burst : Z) :
  no_interval_clash burst ->
  rates_of_params ps pm ph pd pmo burst
  = List.filter (fun rate => truthy (limit rate))
      [ entry_per_second ps burst; entry_per_minute pm; entry_per_hour ph;
        entry_per_day pd; entry_per_month pmo ].
Proof.
  intros (H1 & H2 & H3 & H4). unfold rates_of_params.
  rewrite dict_display_no_clash by assumption.
  simpl. unfold entry_per_second, entry_per_minute, entry_per_hour,
    entry_per_day, entry_per_month.
  destruct (truthy (ps * burst)), (truthy pm), (truthy ph), (truthy pd),
    (truthy pmo); reflexivity.
Qed.





(** C10: the rates are collected in a dict keyed by interval, and the
    per-second key is [SECOND * burst].  With [burst = 60] that key is
    MINUTE: for non-zero [per_second] and [per_minute] the dict holds one
    item for that interval, carrying the per-minute limit, so the rates
    start with the per-minute entry, go on with the hour, day and month
    entries only, and the burst-scaled per-second entry is among them
    only if it happens to equal the per-minute one. *)
Theorem burst_60_per_minute_replaces_per_second (ps pm ph pd pmo : Z) :
  ps <> 0 ->
  pm <> 0 ->
  Duration.SECOND * 60 = Duration.MINUTE /\
  dict_display
    [ (Duration.SECOND * 60, ps * 60); (Duration.MINUTE, pm);
      (Duration.HOUR, ph); (Duration.DAY, pd); (Duration.MONTH, pmo) ]
  = [ (Duration.MINUTE, pm); (Duration.HOUR, ph); (Duration.DAY, pd);
      (Duration.MONTH, pmo) ] /\
  rates_of_params ps pm ph pd pmo 60
  = mkRequestRate pm Duration.MINUTE
    :: List.filter (fun rate => truthy (limit rate))
         [ mkRequestRate ph Duration.HOUR; mkRequestRate pd Duration.DAY;
           mkRequestRate pmo Duration.MONTH ] /\
  length (List.filter (fun rate => interval rate =? Duration.MINUTE)
            (rates_of_params ps pm ph pd pmo 60)) = 1%nat /\
  (ps * 60 <> pm ->
   ~ In (entry_per_second ps 60) (rates_of_params ps pm ph pd pmo 60)).
Proof.
  intros Hps Hpm.
  assert (Hd : dict_display
            [ (Duration.SECOND * 60, ps * 60); (Duration.MINUTE, pm);
              (Duration.HOUR, ph); (Duration.DAY, pd); (Duration.MONTH, pmo) ]
          = [ (Duration.MINUTE, pm); (Duration.HOUR, ph); (Duration.DAY, pd);
              (Duration.MONTH, pmo) ]) by reflexivity.
  assert (Hr : rates_of_params ps pm ph pd pmo 60
          = mkRequestRate pm Duration.MINUTE
            :: List.filter (fun rate => truthy (limit rate))
                 [ mkRequestRate ph Duration.HOUR; mkRequestRate pd Duration.DAY;
                   mkRequestRate pmo Duration.MONTH ]).
  { unfold rates_of_params. rewrite Hd. simpl.
    apply truthy_true in Hpm. rewrite Hpm.
    destruct (truthy ph), (truthy pd), (truthy pmo); reflexivity. }
  split; [reflexivity|]. split; [exact Hd|]. split; [exact Hr|].
  rewrite Hr. split.
  - simpl. destruct (truthy ph), (truthy pd), (truthy pmo); reflexivity.
  - intros Hne Hin. destruct Hin as [Hin|Hin].
    + unfold entry_per_second in Hin. inversion Hin. lia.
    + apply filter_In in Hin. destruct Hin as [Hin _]. simpl in Hin.
      unfold entry_per_second in Hin.
      destruct Hin as [Hin|[Hin|[Hin|[]]]]; inversion Hin.
Qed.

Lemma burst_60_per_minute_replaces_per_second_witness :
  rates_of_params 5 10 0 0 0 60 = [ mkRequestRate 10 60 ].
Proof.
  destruct (burst_60_per_minute_replaces_per_second 5 10 0 0 0) as (_ & _ & H & _).
  - lia.
  - lia.
  - rewrite H. reflexivity.
Defined.

(** ** The catch-up filler *)

Lemma range_length (n : Z) : length (range n) = Z.to_nat n.
Proof. unfold range. rewrite length_map, length_seq. reflexivity. Qed.

(** The loop [for _ in range(n): bucket.put(now)]. *)
Lemma fill_loop (now : Z) (xs : list Z) (bucket : list Z) :
  fold_left (fun b _ => put b now) xs bucket = bucket ++ repeat now (length xs).
Proof.
  revert bucket. induction xs as [|x xs IH]; intros bucket; simpl.
  - rewrite app_nil_r. reflexivity.
  - rewrite IH. unfold put. rewrite <- app_assoc. reflexivity.
Qed.

Lemma inspect_count (bucket : list Z) (now ival : Z) :
  fst (inspect_expired_items bucket (now - ival))
  = Z.of_nat (length (events_in_window bucket now ival)).
Proof. reflexivity. Qed.

Lemma events_in_window_app (b1 b2 : list Z) (now ival : Z) :
  events_in_window (b1 ++ b2) now ival
  = events_in_window b1 now ival ++ events_in_window b2 now ival.
Proof. unfold events_in_window. apply List.filter_app. Qed.

Lemma events_in_window_repeat (t now ival : Z) (n : nat) :
  events_in_window (repeat t n) now ival
  = if now - ival <? t then repeat t n else [].
Proof.
  unfold events_in_window. induction n as [|n IH]; simpl.
  - destruct (now - ival <? t); reflexivity.
  - rewrite IH. destruct (now - ival <? t); reflexivity.
Qed.

(** A later or equal window end keeps no more events than an earlier one. *)
Lemma events_in_window_later (bucket : list Z) (now now' ival : Z) :
  now <= now' ->
  (length (events_in_window bucket now' ival)
   <= length (events_in_window bucket now ival))%nat.
Proof.
  intros Hle. unfold events_in_window.
  induction bucket as [|t bucket IH]; simpl; [lia|].
  destruct (Z.ltb_spec (now' - ival) t), (Z.ltb_spec (now - ival) t);
    simpl; lia.
Qed.

Section Filler.

Variable urlparse : string -> ParseResult.

(** What a run of the filler does when the limiter has a first rate and
    the bucket of the request exists. *)
Lemma _fill_bucket_runs (self : LimiterMixin) (request : PreparedRequest)
    (w : World) (rate : RequestRate) (rest : list RequestRate) (bucket : list Z) :
  _rates (limiter w) = rate :: rest ->
  bucket_group (limiter w) !! _bucket_name urlparse self request = Some bucket ->
  _fill_bucket urlparse self request w
  = (inr tt,
     {| limiter :=
          set_bucket (_bucket_name urlparse self request)
            (bucket ++
             repeat (time_function (limiter w))
               (Z.to_nat
                  (limit rate
                   - Z.of_nat
                       (length
                          (events_in_window bucket (time_function (limiter w))
                             (interval rate))))))
            (limiter w);
        wire := wire w;
        log := log w ++ [fill_message request] |}).
Proof.
  intros Hr Hb. unfold _fill_bucket. cbn [limiter wire log].
  rewrite Hb, Hr. rewrite fill_loop, range_length, inspect_count.
  reflexivity.
Qed.

(** C1: the filler inserts exactly [max(0, L - c)] events into the bucket
    of the request, [L] the limit of the first rate and [c] the number of
    events recorded in the trailing window of that rate's interval ending
    at the current limiter time; each inserted event carries that time,
    and no other bucket is touched.  So 3 recorded events under a limit
    of 5 give 2 insertions, and [c >= L] gives none. *)
Theorem fill_inserts_deficit (self : LimiterMixin) (request : PreparedRequest)
    (w : World) (rate : RequestRate) (rest : list RequestRate) (bucket : list Z) :
  _rates (limiter w) = rate :: rest ->
  bucket_group (limiter w) !! _bucket_name urlparse self request = Some bucket ->
  let now := time_function (limiter w) in
  let c := Z.of_nat (length (events_in_window bucket now (interval rate))) in
  exists (inserted : list Z) (w' : World),
    _fill_bucket urlparse self request w = (inr tt, w') /\
    bucket_group (limiter w') !! _bucket_name urlparse self request
    = Some (bucket ++ inserted) /\
    Z.of_nat (length inserted) = Z.max 0 (limit rate - c) /\
    Forall (fun item => item = now) inserted /\
    (forall key, key <> _bucket_name urlparse self request ->
       bucket_group (limiter w') !! key = bucket_group (limiter w) !! key) /\
    (c = 3 -> limit rate = 5 -> length inserted = 2%nat) /\
    (limit rate <= c -> inserted = []).
Proof.
  intros Hr Hb now c.
  exists (repeat now (Z.to_nat (limit rate - c))). eexists.
  split; [apply (_fill_bucket_runs self request w rate rest bucket Hr Hb)|].
  cbn [limiter set_bucket bucket_group].
  split; [apply lookup_insert_eq|].
  split; [rewrite repeat_length; lia|].
  split; [apply List.Forall_forall; intros x Hx; apply repeat_spec in Hx; exact Hx|].
  split; [intros key Hkey; apply lookup_insert_ne; congruence|].
  split.
  - intros Hc HL. rewrite repeat_length, Hc, HL. reflexivity.
  - intros Hle. replace (Z.to_nat (limit rate - c)) with 0%nat by lia.
    reflexivity.
Qed.

(** The first of an ascending list of rates has the smallest interval. *)
Lemma ascending_head (rate : RequestRate) (rest : list RequestRate) :
  ascending (rate :: rest) ->
  forall r, In r (rate :: rest) -> interval rate <= interval r.
Proof.
  intros Hasc r Hin. apply list_elem_of_In in Hin.
  apply list_elem_of_lookup_1 in Hin. destruct Hin as [j Hj].
  apply (Hasc 0%nat j rate r); [lia|reflexivity|exact Hj].
Qed.

(** C5: the filler takes its rate from position 0 of the limiter's rates:
    what it does is determined by that entry, whatever follows it and
    whether or not the list is ordered (nothing is checked or recomputed).
    When the rates are ascending by interval, that entry is the one with
    the smallest interval. *)
Theorem fill_reads_first_rate (self : LimiterMixin) (request : PreparedRequest)
    (w : World) (rate : RequestRate) (rest : list RequestRate) (bucket : list Z) :
  _rates (limiter w) = rate :: rest ->
  bucket_group (limiter w) !! _bucket_name urlparse self request = Some bucket ->
  let now := time_function (limiter w) in
  let c := Z.of_nat (length (events_in_window bucket now (interval rate))) in
  _fill_bucket urlparse self request w
  = (inr tt,
     {| limiter :=
          set_bucket (_bucket_name urlparse self request)
            (bucket ++ repeat now (Z.to_nat (limit rate - c))) (limiter w);
        wire := wire w;
        log := log w ++ [fill_message request] |}) /\
  (ascending (rate :: rest) ->
   forall r, In r (rate :: rest) -> interval rate <= interval r).
Proof.
  intros Hr Hb now c. split.
  - apply (_fill_bucket_runs self request w rate rest bucket Hr Hb).
  - apply ascending_head.
Qed.

(** ** The bucket key *)

(** C6: with per-host mode on, the key of a request is the network
    location parsed from its URL; so two requests have the same key
    exactly when their URLs have the same network location. *)
Theorem per_host_bucket_name (self : LimiterMixin) (r1 r2 : PreparedRequest) :
  per_host self = true ->
  _bucket_name urlparse self r1 = netloc (urlparse (url r1)) /\
  _bucket_name urlparse self r2 = netloc (urlparse (url r2)) /\
  (netloc (urlparse (url r1)) = netloc (urlparse (url r2)) ->
   _bucket_name urlparse self r1 = _bucket_name urlparse self r2) /\
  (netloc (urlparse (url r1)) <> netloc (urlparse (url r2)) ->
   _bucket_name urlparse self r1 <> _bucket_name urlparse self r2).
Proof.
  intros Hp. unfold _bucket_name. rewrite Hp. tauto.
Qed.

End Filler.

Lemma fill_inserts_deficit_witness :
  exists (inserted : list Z) (w' : World),
    _fill_bucket ref_urlparse (example_mixin true None)
      (example_request "https://example.com/x")
      (example_world
         (example_limiter [mkRequestRate 5 60] [("example.com", [10; 20; 30; 70])] 75))
    = (inr tt, w') /\
    bucket_group (limiter w') !! "example.com" = Some ([10; 20; 30; 70] ++ inserted) /\
    length inserted = 2%nat /\
    Forall (fun item => item = 75) inserted.
Proof.
  destruct (fill_inserts_deficit ref_urlparse (example_mixin true None)
              (example_request "https://example.com/x")
              (example_world
                 (example_limiter [mkRequestRate 5 60]
                    [("example.com", [10; 20; 30; 70])] 75))
              (mkRequestRate 5 60) [] [10; 20; 30; 70])
    as (inserted & w' & H1 & H2 & _ & H4 & _ & H6 & _).
  - reflexivity.
  - vm_compute. reflexivity.
  - exists inserted, w'. split; [exact H1|]. split; [exact H2|].
    split; [|exact H4]. apply H6; reflexivity.
Defined.

Lemma ascending_example : ascending [mkRequestRate 5 1; mkRequestRate 100 3600].
Proof.
  intros i j ri rj Hij Hi Hj.
  destruct i as [|[|i]]; destruct j as [|[|j]]; simpl in Hi, Hj;
    try discriminate; try lia;
    inversion Hi; inversion Hj; subst; simpl; lia.
Qed.

Lemma fill_reads_first_rate_witness :
  fst (_fill_bucket ref_urlparse (example_mixin true None)
         (example_request "https://example.com/x")
         (example_world
            (example_limiter [mkRequestRate 100 3600; mkRequestRate 5 1]
               [("example.com", [70])] 75)))
  = inr tt /\
  bucket_group
    (limiter
       (snd (_fill_bucket ref_urlparse (example_mixin true None)
               (example_request "https://example.com/x")
               (example_world
                  (example_limiter [mkRequestRate 100 3600; mkRequestRate 5 1]
                     [("example.com", [70])] 75)))))
  !! "example.com"
  = Some ([70] ++ repeat 75 99) /\
  interval (mkRequestRate 5 1) <= interval (mkRequestRate 100 3600).
Proof.
  destruct (fill_reads_first_rate ref_urlparse (example_mixin true None)
              (example_request "https://example.com/x")
              (example_world
                 (example_limiter [mkRequestRate 100 3600; mkRequestRate 5 1]
                    [("example.com", [70])] 75))
              (mkRequestRate 100 3600) [mkRequestRate 5 1] [70])
    as [H _].
  - reflexivity.
  - vm_compute. reflexivity.
  - destruct (fill_reads_first_rate ref_urlparse (example_mixin true None)
                (example_request "https://example.com/x")
                (example_world
                   (example_limiter [mkRequestRate 5 1; mkRequestRate 100 3600]
                      [("example.com", [70])] 75))
                (mkRequestRate 5 1) [mkRequestRate 100 3600] [70])
      as [_ Hmin].
    + reflexivity.
    + vm_compute. reflexivity.
    + rewrite H. cbn [fst snd limiter set_bucket bucket_group].
      split; [reflexivity|]. split; [apply lookup_insert_eq|].
      apply (Hmin ascending_example). right. left. reflexivity.
Defined.

Lemma per_host_bucket_name_witness :
  _bucket_name ref_urlparse (example_mixin true None)
    (example_request "https://example.com:8080/a")
  = "example.com:8080" /\
  _bucket_name ref_urlparse (example_mixin true None)
    (example_request "https://example.com:8080/a")
  = _bucket_name ref_urlparse (example_mixin true None)
      (example_request "https://example.com:8080/b?page=2") /\
  _bucket_name ref_urlparse (example_mixin true None)
    (example_request "https://example.com:8080/a")
  <> _bucket_name ref_urlparse (example_mixin true None)
       (example_request "https://example.org/a").
Proof.
  destruct (per_host_bucket_name ref_urlparse (example_mixin true None)
              (example_request "https://example.com:8080/a")
              (example_request "https://example.com:8080/b?page=2"))
    as (H1 & _ & H3 & _); [reflexivity|].
  destruct (per_host_bucket_name ref_urlparse (example_mixin true None)
              (example_request "https://example.com:8080/a")
              (example_request "https://example.org/a"))
    as (_ & _ & _ & H4); [reflexivity|].
  split; [rewrite H1; reflexivity|].
  split; [apply H3; reflexivity|].
  apply H4. vm_compute. discriminate.
Defined.

Section DefaultKey.

Variable urlparse : string -> ParseResult.


End DefaultKey.


(** ** The send interceptor *)

Lemma py_in_In (x : Z) (xs : list Z) : py_in x xs = true <-> In x xs.
Proof.
  unfold py_in. rewrite existsb_exists. split.
  - intros (y & Hy & Heq). apply Z.eqb_eq in Heq. subst y. exact Hy.
  - intros Hx. exists x. split; [exact Hx|apply Z.eqb_refl].
Qed.

Lemma app_singleton_neq {A : Type} (l : list A) (x : A) : l ++ [x] <> l.
Proof.
  intros H. apply (f_equal (@length A)) in H.
  rewrite length_app in H. simpl in H. lia.
Qed.

Section Send.

Variable urlparse : string -> ParseResult.
Variable ratelimit : string -> option Z -> Limiter -> option Exception * Limiter.
Variable super_send :
  list PreparedRequest -> PreparedRequest -> Kwargs -> (Exception + Response) * Z.

Local Abbreviation bucket_name := (_bucket_name urlparse).
Local Abbreviation fill_bucket := (_fill_bucket urlparse).
Local Abbreviation send' := (send urlparse ratelimit super_send).

(** Every exception leaving [send] comes from the limiter's acquisition
    or from the transport, as long as the filler finds its rate and its
    bucket. *)
Lemma send_exception_origin (self : LimiterMixin) (request : PreparedRequest)
    (kwargs : Kwargs) (w : World) :
  (forall l1,
     ratelimit (bucket_name self request) (max_delay self) (limiter w) = (None, l1) ->
     _rates l1 <> [] /\ is_Some (bucket_group l1 !! bucket_name self request)) ->
  forall x w',
    send' self request kwargs w = (inl x, w') ->
    (exists l1,
       ratelimit (bucket_name self request) (max_delay self) (limiter w)
       = (Some x, l1)) \/
    (exists l1 dt,
       ratelimit (bucket_name self request) (max_delay self) (limiter w)
       = (None, l1) /\
       super_send (wire w) request kwargs = (inl x, dt)).
Proof.
  intros Hwf x w'. unfold send.
  destruct (ratelimit (bucket_name self request) (max_delay self) (limiter w))
    as [[e|] l1] eqn:Hacq.
  - intros H. left. exists l1. congruence.
  - destruct (super_send (wire w) request kwargs) as [[e|response] dt] eqn:Hs.
    + intros H. right. exists l1, dt. split; [reflexivity|congruence].
    + destruct (Hwf l1 eq_refl) as [Hr [bucket Hb]].
      destruct (_rates l1) as [|rate rest] eqn:Hrates; [congruence|].
      destruct (py_in (status_code response) (limit_statuses self)).
      * rewrite (_fill_bucket_runs urlparse self request _ rate rest bucket);
          [discriminate|exact Hrates|exact Hb].
      * discriminate.
Qed.

(** C3: when entering the limiter's block raises (the wait would exceed
    the maximum delay: BucketFull), [send] raises that very exception and
    hands nothing to the transport, logs nothing and fills nothing.  The
    mixin raises nothing of its own: with a limiter that, once it grants
    capacity, has a first rate and the bucket of the key, every exception
    leaving [send] was raised either by the limiter's acquisition or by
    the transport. *)
Theorem send_bucket_full (self : LimiterMixin) (request : PreparedRequest)
    (kwargs : Kwargs) (w : World) :
  (forall e l',
     ratelimit (bucket_name self request) (max_delay self) (limiter w) = (Some e, l') ->
     send' self request kwargs w
     = (inl e, {| limiter := l'; wire := wire w; log := log w |}) /\
     wire (snd (send' self request kwargs w)) = wire w) /\
  ((forall l1,
      ratelimit (bucket_name self request) (max_delay self) (limiter w) = (None, l1) ->
      _rates l1 <> [] /\ is_Some (bucket_group l1 !! bucket_name self request)) ->
   forall x w',
     send' self request kwargs w = (inl x, w') ->
     (exists l1,
        ratelimit (bucket_name self request) (max_delay self) (limiter w)
        = (Some x, l1)) \/
     (exists l1 dt,
        ratelimit (bucket_name self request) (max_delay self) (limiter w)
        = (None, l1) /\
        super_send (wire w) request kwargs = (inl x, dt))).
Proof.
  split.
  - intros e l' Hacq. unfold send. rewrite Hacq. split; reflexivity.
  - apply send_exception_origin.
Qed.

(** The filler logs its record first, whatever happens next. *)
Lemma _fill_bucket_log (self : LimiterMixin) (request : PreparedRequest) (w : World) :
  log (snd (fill_bucket self request w)) = log w ++ [fill_message request].
Proof.
  unfold _fill_bucket. cbn [limiter wire log].
  destruct (bucket_group (limiter w) !! bucket_name self request);
    [destruct (_rates (limiter w))|]; reflexivity.
Qed.

(** C4: when the transport answers, the filler runs, on the same request
    and so on the same bucket key, exactly when the status code of the
    response is one of [limit_statuses]; its effects are part of the
    state the call returns.  A response returned by [send] is the one the
    transport produced, and it is returned whenever the filler finds its
    rate and its bucket. *)
Theorem send_fills_on_limit_status (self : LimiterMixin) (request : PreparedRequest)
    (kwargs : Kwargs) (w : World) (l1 : Limiter) (response : Response) (dt : Z) :
  ratelimit (bucket_name self request) (max_delay self) (limiter w) = (None, l1) ->
  super_send (wire w) request kwargs = (inr response, dt) ->
  let w1 := after_transport w l1 request dt in
  (In (status_code response) (limit_statuses self) ->
   snd (send' self request kwargs w) = snd (fill_bucket self request w1)) /\
  (~ In (status_code response) (limit_statuses self) ->
   snd (send' self request kwargs w) = w1) /\
  (log (snd (send' self request kwargs w)) = log w ++ [fill_message request]
   <-> In (status_code response) (limit_statuses self)) /\
  (forall r, fst (send' self request kwargs w) = inr r -> r = response) /\
  (forall rate rest bucket,
     _rates l1 = rate :: rest ->
     bucket_group l1 !! bucket_name self request = Some bucket ->
     fst (send' self request kwargs w) = inr response).
Proof.
  intros Hacq Hs w1.
  pose proof (_fill_bucket_log self request w1) as Hlog.
  unfold send. rewrite Hacq, Hs. fold (after_transport w l1 request dt). fold w1.
  destruct (py_in (status_code response) (limit_statuses self)) eqn:Hin.
  - apply py_in_In in Hin.
    split; [intros _; destruct (fill_bucket self request w1) as [[e|u] w2];
            reflexivity|].
    split; [intros Hn; contradiction|].
    split; [split; [intros _; exact Hin|intros _]|].
    { destruct (fill_bucket self request w1) as [[e|u] w2]; exact Hlog. }
    split.
    + intros r. destruct (fill_bucket self request w1) as [[e|u] w2];
        cbn [fst]; congruence.
    + intros rate rest bucket Hr Hb.
      rewrite (_fill_bucket_runs urlparse self request w1 rate rest bucket Hr Hb).
      reflexivity.
  - assert (Hn : ~ In (status_code response) (limit_statuses self)).
    { intros H. apply py_in_In in H. congruence. }
    cbn [fst snd]. split; [intros H; contradiction|].
    split; [reflexivity|]. split; [split; [|intros H; contradiction]|].
    { intros H. unfold w1, after_transport in H. cbn [log] in H.
      symmetry in H. apply app_singleton_neq in H. contradiction. }
    split; [congruence|reflexivity].
Qed.

(** C9: when the transport's [send] raises, [send] raises the same
    exception; the filler does not run, so nothing is logged and the
    buckets are as the acquisition left them. *)
Theorem send_transport_error (self : LimiterMixin) (request : PreparedRequest)
    (kwargs : Kwargs) (w : World) (l1 : Limiter) (e : Exception) (dt : Z) :
  ratelimit (bucket_name self request) (max_delay self) (limiter w) = (None, l1) ->
  super_send (wire w) request kwargs = (inl e, dt) ->
  send' self request kwargs w = (inl e, after_transport w l1 request dt) /\
  log (snd (send' self request kwargs w)) = log w /\
  bucket_group (limiter (snd (send' self request kwargs w))) = bucket_group l1.
Proof.
  intros Hacq Hs. unfold send. rewrite Hacq, Hs. cbn [snd].
  repeat split.
Qed.

End Send.

Lemma send_bucket_full_witness :
  send ref_urlparse ref_ratelimit (mock_transport 200 1)
    (example_mixin true (Some 5)) (example_request "https://example.com/x") []
    (example_world
       (example_limiter [mkRequestRate 2 60] [("example.com", [75; 76])] 80))
  = (inl (BucketFullException "example.com" (mkRequestRate 2 60) 55),
     example_world
       (example_limiter [mkRequestRate 2 60] [("example.com", [75; 76])] 80)) /\
  (exists l1 dt,
     ref_ratelimit "example.com" (Some 5)
       (example_limiter [mkRequestRate 2 60] [("example.com", [5])] 80)
     = (None, l1) /\
     broken_transport (OtherError "ConnectionError") 1 []
       (example_request "https://example.com/x") []
     = (inl (OtherError "ConnectionError"), dt)).
Proof.
  split.
  - destruct (send_bucket_full ref_urlparse ref_ratelimit (mock_transport 200 1)
                (example_mixin true (Some 5))
                (example_request "https://example.com/x") []
                (example_world
                   (example_limiter [mkRequestRate 2 60]
                      [("example.com", [75; 76])] 80)))
      as [H _].
    destruct (H (BucketFullException "example.com" (mkRequestRate 2 60) 55)
                (example_limiter [mkRequestRate 2 60]
                   [("example.com", [75; 76])] 80))
      as [Hsend _]; [vm_compute; reflexivity|].
    exact Hsend.
  - destruct (send_bucket_full ref_urlparse ref_ratelimit
                (broken_transport (OtherError "ConnectionError") 1)
                (example_mixin true (Some 5))
                (example_request "https://example.com/x") []
                (example_world
                   (example_limiter [mkRequestRate 2 60]
                      [("example.com", [5])] 80)))
      as [_ H].
    destruct (H ltac:(intros l1 Hl1; vm_compute in Hl1; inversion Hl1;
                      split; [discriminate|eexists; vm_compute; reflexivity])
                (OtherError "ConnectionError")
                {| limiter :=
                     example_limiter [mkRequestRate 2 60]
                       [("example.com", [5; 80])] 81;
                   wire := [example_request "https://example.com/x"];
                   log := [] |}
                ltac:(vm_compute; reflexivity))
      as [[l1 Hl1]|(l1 & dt & Hl1 & Hs)].
    + vm_compute in Hl1. discriminate Hl1.
    + exists l1, dt. split; [exact Hl1|exact Hs].
Defined.

Lemma send_fills_on_limit_status_witness :
  fst (send ref_urlparse ref_ratelimit (mock_transport 429 1)
         (example_mixin true None) (example_request "https://example.com/x") []
         (example_world
            (example_limiter [mkRequestRate 5 60] [("example.com", [10; 20; 70])] 75)))
  = inr (mkResponse 429 "body") /\
  log (snd (send ref_urlparse ref_ratelimit (mock_transport 429 1)
              (example_mixin true None) (example_request "https://example.com/x") []
              (example_world
                 (example_limiter [mkRequestRate 5 60]
                    [("example.com", [10; 20; 70])] 75))))
  = [fill_message (example_request "https://example.com/x")] /\
  bucket_group
    (limiter
       (snd (send ref_urlparse ref_ratelimit (mock_transport 429 1)
               (example_mixin true None) (example_request "https://example.com/x") []
               (example_world
                  (example_limiter [mkRequestRate 5 60]
                     [("example.com", [10; 20; 70])] 75)))))
  !! "example.com"
  = Some [10; 20; 70; 75; 76; 76].
Proof.
  destruct (send_fills_on_limit_status ref_urlparse ref_ratelimit
              (mock_transport 429 1) (example_mixin true None)
              (example_request "https://example.com/x") []
              (example_world
                 (example_limiter [mkRequestRate 5 60]
                    [("example.com", [10; 20; 70])] 75))
              (example_limiter [mkRequestRate 5 60]
                 [("example.com", [10; 20; 70; 75])] 75)
              (mkResponse 429 "body") 1)
    as (H1 & _ & H3 & _ & H5).
  - vm_compute. reflexivity.
  - reflexivity.
  - split; [|split].
    + apply (H5 (mkRequestRate 5 60) [] [10; 20; 70; 75]).
      * reflexivity.
      * vm_compute. reflexivity.
    + apply H3. left. reflexivity.
    + rewrite (H1 ltac:(left; reflexivity)). vm_compute. reflexivity.
Defined.

Lemma send_transport_error_witness :
  send ref_urlparse ref_ratelimit (broken_transport (OtherError "ConnectionError") 1)
    (example_mixin true None) (example_request "https://example.com/x") []
    (example_world
       (example_limiter [mkRequestRate 5 60] [("example.com", [10; 20; 70])] 75))
  = (inl (OtherError "ConnectionError"),
     {| limiter :=
          example_limiter [mkRequestRate 5 60] [("example.com", [10; 20; 70; 75])] 76;
        wire := [example_request "https://example.com/x"];
        log := [] |}).
Proof.
  destruct (send_transport_error ref_urlparse ref_ratelimit
              (broken_transport (OtherError "ConnectionError") 1)
              (example_mixin true None)
              (example_request "https://example.com/x") []
              (example_world
                 (example_limiter [mkRequestRate 5 60]
                    [("example.com", [10; 20; 70])] 75))
              (example_limiter [mkRequestRate 5 60]
                 [("example.com", [10; 20; 70; 75])] 75)
              (OtherError "ConnectionError") 1)
    as (H & _ & _).
  - vm_compute. reflexivity.
  - reflexivity.
  - rewrite H. vm_compute. reflexivity.
Defined.

(** ** The fill never overshoots *)

Lemma remaining_nonneg (bucket : list Z) (t : Z) :
  0 <= snd (inspect_expired_items bucket t).
Proof.
  unfold inspect_expired_items. cbn [snd].
  destruct (List.filter (fun item => t <? item) bucket) as [|item unexpired] eqn:E;
    [lia|].
  assert (Hin : In item (List.filter (fun item => t <? item) bucket))
    by (rewrite E; left; reflexivity).
  apply filter_In in Hin. destruct Hin as [_ Hlt].
  apply Z.ltb_lt in Hlt. lia.
Qed.

Lemma capped_elapse (l : Limiter) (dt : Z) :
  0 <= dt -> capped l -> capped (elapse dt l).
Proof.
  intros Hdt Hc rate rest key bucket Hr Hb. cbn in Hr, Hb.
  specialize (Hc rate rest key bucket Hr Hb).
  pose proof (events_in_window_later bucket (clock l) (clock l + dt)
                (interval rate) ltac:(lia)) as Hlater.
  unfold time_function in *. cbn [elapse clock]. lia.
Qed.

(** Recording one event at a time when the window is not full keeps the
    bucket within the limit. *)
Lemma capped_put (l : Limiter) (key : string) :
  capped l ->
  (forall rate rest,
     _rates l = rate :: rest ->
     Z.of_nat
       (length
          (events_in_window (default [] (bucket_group l !! key))
             (time_function l) (interval rate)))
     < limit rate) ->
  capped
    (set_bucket key (put (default [] (bucket_group l !! key)) (time_function l)) l).
Proof.
  intros Hc Hroom rate rest key' bucket' Hr Hb. cbn in Hr, Hb.
  unfold time_function. cbn [set_bucket clock].
  destruct (decide (key' = key)) as [->|Hne].
  - rewrite lookup_insert_eq in Hb. inversion Hb; subst bucket'.
    specialize (Hroom rate rest Hr). unfold put, time_function in *.
    rewrite events_in_window_app, length_app.
    assert (length (events_in_window [clock l] (clock l) (interval rate)) <= 1)%nat.
    { unfold events_in_window. simpl.
      destruct (clock l - interval rate <? clock l); simpl; lia. }
    lia.
  - rewrite lookup_insert_ne in Hb by congruence.
    exact (Hc rate rest key' bucket' Hr Hb).
Qed.

Lemma full_rate_None (bucket : list Z) (now : Z) (rates : list RequestRate)
    (rate : RequestRate) :
  full_rate bucket now rates = None ->
  In rate rates ->
  Z.of_nat (length (events_in_window bucket now (interval rate))) < limit rate.
Proof.
  intros Hnone Hin. unfold full_rate in Hnone.
  pose proof (find_none _ _ Hnone rate Hin) as H. cbn beta in H.
  rewrite inspect_count in H. apply Z.leb_gt in H. exact H.
Qed.

(** The reference limiter keeps its side of the contract. *)
Lemma ref_acquire_contract (fuel : nat) : limiter_contract (ref_acquire fuel).
Proof.
  induction fuel as [|fuel IH]; intros key md l r l' Hacq; simpl in Hacq;
    destruct (full_rate (default [] (bucket_group l !! key)) (time_function l)
                (_rates l)) as [rate|] eqn:Hfull.
  - assert (Hl : l' = l)
      by (destruct md as [m|]; [destruct (m <? _)|]; congruence).
    subst l'. split; [reflexivity|]. split; [lia|auto].
  - inversion Hacq; subst r l'. cbn [set_bucket _rates clock].
    split; [reflexivity|]. split; [lia|].
    intros Hc. apply capped_put; [exact Hc|].
    intros rate rest Hr. apply (full_rate_None _ _ _ rate Hfull).
    rewrite Hr. left. reflexivity.
  - pose proof (remaining_nonneg (default [] (bucket_group l !! key))
                  (time_function l - interval rate)) as Hrem.
    assert (Hwait : forall r0 l0,
              ref_acquire fuel key md
                (elapse
                   (snd (inspect_expired_items (default [] (bucket_group l !! key))
                           (time_function l - interval rate))) l) = (r0, l0) ->
              _rates l0 = _rates l /\ clock l <= clock l0 /\ (capped l -> capped l0)).
    { intros r0 l0 H0. destruct (IH _ _ _ _ _ H0) as (H1 & H2 & H3).
      cbn [elapse _rates clock] in H1, H2.
      split; [exact H1|]. split; [lia|].
      intros Hc. apply H3. apply capped_elapse; assumption. }
    destruct md as [m|].
    + destruct (m <? _).
      * inversion Hacq; subst r l'. split; [reflexivity|]. split; [lia|auto].
      * exact (Hwait r l' Hacq).
    + exact (Hwait r l' Hacq).
  - inversion Hacq; subst r l'. cbn [set_bucket _rates clock].
    split; [reflexivity|]. split; [lia|].
    intros Hc. apply capped_put; [exact Hc|].
    intros rate rest Hr. apply (full_rate_None _ _ _ rate Hfull).
    rewrite Hr. left. reflexivity.
Qed.

Section Capping.

Variable urlparse : string -> ParseResult.
Variable ratelimit : string -> option Z -> Limiter -> option Exception * Limiter.
Variable super_send :
  list PreparedRequest -> PreparedRequest -> Kwargs -> (Exception + Response) * Z.

Hypothesis ratelimit_ok : limiter_contract ratelimit.
Hypothesis latency_nonneg :
  forall sent request kwargs, 0 <= snd (super_send sent request kwargs).

(** The filler tops the bucket up to the limit and not beyond. *)
Lemma capped_fill (self : LimiterMixin) (request : PreparedRequest) (w : World) :
  capped (limiter w) ->
  capped (limiter (snd (_fill_bucket urlparse self request w))) /\
  _rates (limiter (snd (_fill_bucket urlparse self request w))) = _rates (limiter w) /\
  clock (limiter (snd (_fill_bucket urlparse self request w))) = clock (limiter w).
Proof.
  intros Hc. unfold _fill_bucket. cbn [limiter wire log].
  destruct (bucket_group (limiter w) !! _bucket_name urlparse self request)
    as [bucket|] eqn:Hb; [|cbn; auto].
  destruct (_rates (limiter w)) as [|rate rest] eqn:Hr; [cbn; auto|].
  cbn [snd limiter set_bucket _rates clock].
  split; [|split; [exact Hr|reflexivity]].
  intros rate' rest' key' bucket' Hr' Hb'.
  cbn [limiter snd set_bucket bucket_group _rates] in Hr', Hb'.
  rewrite Hr in Hr'. inversion Hr'; subst rate' rest'.
  unfold time_function in *. cbn [clock set_bucket].
  destruct (decide (key' = _bucket_name urlparse self request)) as [->|Hne].
  - rewrite lookup_insert_eq in Hb'. inversion Hb'; subst bucket'.
    specialize (Hc rate rest _ bucket Hr Hb). unfold time_function in Hc.
    rewrite fill_loop, range_length.
    fold (events_in_window bucket (clock (limiter w)) (interval rate)).
    rewrite events_in_window_app, events_in_window_repeat, length_app.
    destruct (clock (limiter w) - interval rate <? clock (limiter w)).
    + rewrite repeat_length. lia.
    + simpl. lia.
  - rewrite lookup_insert_ne in Hb' by congruence.
    exact (Hc rate rest key' bucket' Hr Hb').
Qed.

Lemma capped_send (self : LimiterMixin) (request : PreparedRequest)
    (kwargs : Kwargs) (w : World) :
  capped (limiter w) ->
  capped (limiter (snd (send urlparse ratelimit super_send self request kwargs w))) /\
  _rates (limiter (snd (send urlparse ratelimit super_send self request kwargs w)))
  = _rates (limiter w).
Proof.
  intros Hc. unfold send.
  destruct (ratelimit (_bucket_name urlparse self request) (max_delay self)
              (limiter w)) as [r l1] eqn:Hacq.
  destruct (ratelimit_ok _ _ _ _ _ Hacq) as (Hrates & _ & Hcap).
  specialize (Hcap Hc).
  destruct r as [e|]; [cbn; auto|].
  pose proof (latency_nonneg (wire w) request kwargs) as Hdt.
  destruct (super_send (wire w) request kwargs) as [outcome dt]. cbn [snd] in Hdt.
  assert (Hc1 : capped (elapse dt l1)) by (apply capped_elapse; assumption).
  destruct outcome as [e|response]; [cbn; auto|].
  destruct (py_in (status_code response) (limit_statuses self)); [|cbn; auto].
  pose proof (capped_fill self request
                {| limiter := elapse dt l1; wire := wire w ++ [request];
                   log := log w |} Hc1) as (Hf1 & Hf2 & _).
  destruct (_fill_bucket urlparse self request
              {| limiter := elapse dt l1; wire := wire w ++ [request];
                 log := log w |}) as [[e|u] w2];
    cbn [snd limiter elapse _rates] in *; (split; [exact Hf1|congruence]).
Qed.

Lemma capped_run_sends (self : LimiterMixin)
    (requests : list (PreparedRequest * Kwargs)) (w : World) :
  capped (limiter w) ->
  capped (limiter (snd (run_sends urlparse ratelimit super_send self requests w))) /\
  _rates (limiter (snd (run_sends urlparse ratelimit super_send self requests w)))
  = _rates (limiter w).
Proof.
  revert w. induction requests as [|[request kwargs] requests IH]; intros w Hc.
  - cbn. auto.
  - cbn [run_sends].
    destruct (capped_send self request kwargs w Hc) as [Hc1 Hr1].
    destruct (send urlparse ratelimit super_send self request kwargs w) as [r w1].
    cbn [snd] in Hc1, Hr1.
    destruct (IH w1 Hc1) as [Hc2 Hr2].
    destruct (run_sends urlparse ratelimit super_send self requests w1) as [rs w2].
    cbn [snd] in *. split; [exact Hc2|congruence].
Qed.

End Capping.

(** C2: take a limiter that keeps its contract and a transport that
    answers every call with a limit-exceeded status (and takes no
    negative time), and start from buckets within the limit, such as the
    empty bucket group of a fresh limiter.  After any number [n] of sends,
    each followed by its catch-up fill, the rates are the configured ones
    and every bucket holds, in the trailing window of the first rate's
    interval ending at the current limiter time, no more events than that
    rate's limit. *)
Theorem fills_never_overshoot
    (urlparse : string -> ParseResult)
    (ratelimit : string -> option Z -> Limiter -> option Exception * Limiter)
    (super_send :
       list PreparedRequest -> PreparedRequest -> Kwargs -> (Exception + Response) * Z)
    (self : LimiterMixin) (requests : list (PreparedRequest * Kwargs))
    (w : World) (n : nat) :
  limiter_contract ratelimit ->
  (forall sent request kwargs,
     exists response dt,
       super_send sent request kwargs = (inr response, dt) /\
       In (status_code response) (limit_statuses self) /\
       0 <= dt) ->
  capped (limiter w) ->
  let w' := snd (run_sends urlparse ratelimit super_send self (take n requests) w) in
  _rates (limiter w') = _rates (limiter w) /\
  forall rate rest key bucket,
    _rates (limiter w') = rate :: rest ->
    bucket_group (limiter w') !! key = Some bucket ->
    Z.of_nat
      (length (events_in_window bucket (time_function (limiter w')) (interval rate)))
    <= limit rate.
Proof.
  intros Hcontract Htransport Hc w'.
  assert (Hlat : forall sent request kwargs,
             0 <= snd (super_send sent request kwargs)).
  { intros sent request kwargs.
    destruct (Htransport sent request kwargs) as (response & dt & Hs & _ & Hdt).
    rewrite Hs. exact Hdt. }
  destruct (capped_run_sends urlparse ratelimit super_send Hcontract Hlat self
              (take n requests) w Hc) as [Hcap Hrates].
  split; [exact Hrates|exact Hcap].
Qed.

Lemma fills_never_overshoot_witness :
  let w' :=
    snd (run_sends ref_urlparse ref_ratelimit (mock_transport 429 1)
           (example_mixin true None)
           [ (example_request "https://example.com/a", []);
             (example_request "https://example.com/b", []);
             (example_request "https://example.org/c", []) ]
           (example_world (example_limiter [mkRequestRate 2 60] [] 75))) in
  bucket_group (limiter w') !! "example.com" = Some [75; 76; 135; 136] /\
  time_function (limiter w') = 137 /\
  Z.of_nat (length (events_in_window [75; 76; 135; 136] 137 60)) <= 2.
Proof.
  cbv zeta. split; [vm_compute; reflexivity|]. split; [vm_compute; reflexivity|].
  destruct (fills_never_overshoot ref_urlparse ref_ratelimit (mock_transport 429 1)
              (example_mixin true None)
              [ (example_request "https://example.com/a", []);
                (example_request "https://example.com/b", []);
                (example_request "https://example.org/c", []) ]
              (example_world (example_limiter [mkRequestRate 2 60] [] 75)) 3)
    as [_ H].
  - exact (ref_acquire_contract 64).
  - intros sent request kwargs. exists (mkResponse 429 "body"), 1.
    split; [reflexivity|]. split; [left; reflexivity|lia].
  - intros rate rest key bucket _ Hb. cbn in Hb.
    rewrite lookup_empty in Hb. discriminate Hb.
  - exact (H (mkRequestRate 2 60) [] "example.com" [75; 76; 135; 136]
             ltac:(vm_compute; reflexivity) ltac:(vm_compute; reflexivity)).
Defined.

(** * Further properties of the module *)

(** ** [get_valid_kwargs] *)

Section KeywordArgumentsProperties.

Variable V : Type.

Lemma name_in_In (k : string) (names : list string) :
  name_in k names = true <-> In k names.
Proof.
  unfold name_in. rewrite existsb_exists. split.
  - intros (k' & Hk' & Heq). apply String.eqb_eq in Heq. subst k'. exact Hk'.
  - intros Hk. exists k. split; [exact Hk|apply String.eqb_refl].
Qed.

Lemma is_not_None_true (v : option V) : is_not_None V v = true <-> v <> None.
Proof. destruct v; simpl; split; intros; congruence. Qed.

Lemma kwargs_setitem_new (k : string) (v : option V) (d : list (string * option V)) :
  ~ In k (map fst d) -> kwargs_setitem V k v d = d ++ [(k, v)].
Proof.
  induction d as [|[k' v'] d IH]; intros Hk; simpl; [reflexivity|].
  destruct (String.eqb_spec k k') as [->|Hne].
  - exfalso. apply Hk. left. reflexivity.
  - rewrite IH; [reflexivity|]. intros Hin. apply Hk. right. exact Hin.
Qed.

Lemma fold_setitem_fresh (items acc : list (string * option V)) :
  List.NoDup (map fst (acc ++ items)) ->
  fold_left (fun d kv => kwargs_setitem V (fst kv) (snd kv) d) items acc
  = acc ++ items.
Proof.
  revert acc. induction items as [|[k v] items IH]; intros acc Hnd; simpl.
  - rewrite app_nil_r. reflexivity.
  - rewrite kwargs_setitem_new.
    + rewrite IH; rewrite <- app_assoc; [reflexivity|exact Hnd].
    + rewrite map_app in Hnd. apply NoDup_app_remove_r in Hnd as Hacc.
      intros Hin. rewrite <- map_app in Hnd.
      rewrite map_app in Hnd. simpl in Hnd.
      apply NoDup_remove_2 in Hnd. apply Hnd.
      apply in_or_app. left. exact Hin.
Qed.

(** Items with distinct keys make the dict they are listed in. *)
Lemma dict_of_items_NoDup (items : list (string * option V)) :
  List.NoDup (map fst items) -> dict_of_items V items = items.
Proof. intros Hnd. unfold dict_of_items. apply (fold_setitem_fresh items []). exact Hnd. Qed.

Lemma filter_keys_NoDup (P : string * option V -> bool)
    (items : list (string * option V)) :
  List.NoDup (map fst items) -> List.NoDup (map fst (List.filter P items)).
Proof.
  induction items as [|kv items IH]; intros Hnd; simpl; [constructor|].
  inversion Hnd as [|? ? Hnotin Hnd']; subst.
  destruct (P kv); simpl; [|apply IH; exact Hnd'].
  constructor; [|apply IH; exact Hnd'].
  intros Hin. apply Hnotin. apply in_map_iff in Hin.
  destruct Hin as (kv' & Heq & Hin). apply filter_In in Hin.
  apply in_map_iff. exists kv'. tauto.
Qed.

Lemma get_valid_kwargs_filter (sig_params : list string)
    (kwargs : list (string * option V)) :
  List.NoDup (map fst kwargs) ->
  get_valid_kwargs V sig_params kwargs
  = List.filter
      (fun kv => name_in (fst kv) sig_params && is_not_None V (snd kv)) kwargs.
Proof.
  intros Hnd. unfold get_valid_kwargs. apply dict_of_items_NoDup.
  apply filter_keys_NoDup. exact Hnd.
Qed.

(** X1: on a dict of keyword arguments (distinct names),
    [get_valid_kwargs] keeps, in their order, exactly the items whose name
    is a parameter of the function and whose value is not [None]. *)
Theorem get_valid_kwargs_keeps (sig_params : list string)
    (kwargs : list (string * option V)) :
  List.NoDup (map fst kwargs) ->
  get_valid_kwargs V sig_params kwargs
  = List.filter
      (fun kv => name_in (fst kv) sig_params && is_not_None V (snd kv)) kwargs /\
  forall k v,
    In (k, v) (get_valid_kwargs V sig_params kwargs)
    <-> In (k, v) kwargs /\ In k sig_params /\ v <> None.
Proof.
  intros Hnd. split; [exact (get_valid_kwargs_filter sig_params kwargs Hnd)|].
  intros k v. rewrite (get_valid_kwargs_filter sig_params kwargs Hnd), filter_In.
  cbn [fst snd]. rewrite andb_true_iff, name_in_In, is_not_None_true. tauto.
Qed.

End KeywordArgumentsProperties.

Lemma get_valid_kwargs_keeps_witness :
  get_valid_kwargs string adapter_params example_kwargs
  = [ ("max_retries", Some "3"); ("pool_maxsize", Some "20") ].
Proof.
  destruct (get_valid_kwargs_keeps string adapter_params example_kwargs) as [H _].
  - repeat constructor; simpl; intuition discriminate.
  - rewrite H. reflexivity.
Defined.

(** ** More on the construction of the rates *)

Ltac rates_by_cases :=
  unfold rates_of_params, fixed_entries, entry_per_second, entry_per_minute,
    entry_per_hour, entry_per_day, entry_per_month, nonzero_limit;
  simpl;
  repeat match goal with
         | |- context [truthy ?x] => destruct (truthy x)
         end;
  reflexivity.

(** The rates in the five situations the per-second key can be in: equal
    to one of the four fixed intervals, or to none of them. *)
Lemma rates_cases (ps pm ph pd pmo burst : Z) :
  (burst = 60 /\
   rates_of_params ps pm ph pd pmo burst
   = List.filter nonzero_limit
       [ entry_per_minute pm; entry_per_hour ph; entry_per_day pd;
         entry_per_month pmo ]) \/
  (burst = 3600 /\
   rates_of_params ps pm ph pd pmo burst
   = List.filter nonzero_limit
       [ entry_per_hour ph; entry_per_minute pm; entry_per_day pd;
         entry_per_month pmo ]) \/
  (burst = 86400 /\
   rates_of_params ps pm ph pd pmo burst
   = List.filter nonzero_limit
       [ entry_per_day pd; entry_per_minute pm; entry_per_hour ph;
         entry_per_month pmo ]) \/
  (burst = 2592000 /\
   rates_of_params ps pm ph pd pmo burst
   = List.filter nonzero_limit
       [ entry_per_month pmo; entry_per_minute pm; entry_per_hour ph;
         entry_per_day pd ]) \/
  (no_interval_clash burst /\
   rates_of_params ps pm ph pd pmo burst
   = List.filter nonzero_limit
       [ entry_per_second ps burst; entry_per_minute pm; entry_per_hour ph;
         entry_per_day pd; entry_per_month pmo ]).
Proof.
  destruct (Z.eq_dec burst 60) as [->|H1];
    [left; split; [reflexivity|rates_by_cases]|].
  destruct (Z.eq_dec burst 3600) as [->|H2];
    [right; left; split; [reflexivity|rates_by_cases]|].
  destruct (Z.eq_dec burst 86400) as [->|H3];
    [right; right; left; split; [reflexivity|rates_by_cases]|].
  destruct (Z.eq_dec burst 2592000) as [->|H4];
    [right; right; right; left; split; [reflexivity|rates_by_cases]|].
  right; right; right; right.
  assert (Hclash : no_interval_clash burst).
  { unfold no_interval_clash, Duration.SECOND, Duration.MINUTE, Duration.HOUR,
      Duration.DAY, Duration.MONTH. lia. }
  split; [exact Hclash|]. apply rates_no_clash. exact Hclash.
Qed.

Lemma In_filter_nonzero (r : RequestRate) (l : list RequestRate) :
  In r (List.filter nonzero_limit l) <-> In r l /\ limit r <> 0.
Proof. rewrite filter_In. unfold nonzero_limit. rewrite truthy_true. tauto. Qed.

Lemma NoDup_intervals_filter (P : RequestRate -> bool) (l : list RequestRate) :
  List.NoDup (map interval l) -> List.NoDup (map interval (List.filter P l)).
Proof.
  induction l as [|r l IH]; intros Hnd; simpl; [constructor|].
  inversion Hnd as [|? ? Hnotin Hnd']; subst.
  destruct (P r); simpl; [|apply IH; exact Hnd'].
  constructor; [|apply IH; exact Hnd'].
  intros Hin. apply Hnotin. apply in_map_iff in Hin.
  destruct Hin as (r' & Heq & Hin). apply filter_In in Hin.
  apply in_map_iff. exists r'. tauto.
Qed.

Lemma StronglySorted_filter_shorter (P : RequestRate -> bool) (l : list RequestRate) :
  StronglySorted shorter l -> StronglySorted shorter (List.filter P l).
Proof.
  induction 1 as [|r l Hsorted IH Hall]; simpl; [constructor|].
  destruct (P r); [|exact IH].
  constructor; [exact IH|].
  apply List.Forall_forall. intros r' Hr'. apply filter_In in Hr'.
  rewrite List.Forall_forall in Hall. apply Hall. tauto.
Qed.

Lemma StronglySorted_ascending (l : list RequestRate) :
  StronglySorted shorter l -> ascending l.
Proof.
  induction 1 as [|r l Hsorted IH Hall]; intros i j ri rj Hij Hi Hj.
  - destruct i; discriminate Hi.
  - destruct i as [|i], j as [|j]; simpl in Hi, Hj.
    + inversion Hi; inversion Hj; subst. lia.
    + inversion Hi; subst ri. rewrite List.Forall_forall in Hall.
      assert (Hin : In rj l).
      { apply list_elem_of_In. apply list_elem_of_lookup. exists j. exact Hj. }
      specialize (Hall rj Hin). unfold shorter in Hall. lia.
    + lia.
    + apply (IH i j ri rj); [lia|exact Hi|exact Hj].
Qed.

Ltac unfold_durations :=
  unfold no_interval_clash, shorter, entry_per_second, entry_per_minute,
    entry_per_hour, entry_per_day, entry_per_month, Duration.SECOND,
    Duration.MINUTE, Duration.HOUR, Duration.DAY, Duration.MONTH in *;
  cbn [interval limit] in *.

(** X2: whatever the parameters (a zero burst or a burst that makes the
    per-second interval coincide with another one included), every rate
    built by [__init__] is the entry of one of the five parameters and
    has a limit that is not zero, no two rates have the same interval,
    and there are at most five; with every [per_*] at zero there is no
    rate at all. *)
Theorem rates_of_params_sound (ps pm ph pd pmo burst : Z) :
  (forall r,
     In r (rates_of_params ps pm ph pd pmo burst) ->
     limit r <> 0 /\
     (r = entry_per_second ps burst \/ In r (fixed_entries pm ph pd pmo))) /\
  List.NoDup (map interval (rates_of_params ps pm ph pd pmo burst)) /\
  (length (rates_of_params ps pm ph pd pmo burst) <= 5)%nat /\
  rates_of_params 0 0 0 0 0 burst = [].
Proof.
  assert (Hin : forall ps pm ph pd pmo r,
             In r (rates_of_params ps pm ph pd pmo burst) ->
             limit r <> 0 /\
             (r = entry_per_second ps burst \/ In r (fixed_entries pm ph pd pmo))).
  { clear. intros ps pm ph pd pmo r Hr.
    destruct (rates_cases ps pm ph pd pmo burst)
      as [[_ E]|[[_ E]|[[_ E]|[[_ E]|[_ E]]]]];
      rewrite E in Hr; apply In_filter_nonzero in Hr; destruct Hr as [Hr Hl];
      (split; [exact Hl|]); unfold fixed_entries; simpl in Hr |- *;
      intuition congruence. }
  split; [apply Hin|]. split; [|split].
  - destruct (rates_cases ps pm ph pd pmo burst)
      as [[_ E]|[[_ E]|[[_ E]|[[_ E]|[Hc E]]]]];
      rewrite E; apply NoDup_intervals_filter;
      unfold_durations; simpl;
      repeat (constructor; [simpl; intros H; intuition lia|]); constructor.
  - destruct (rates_cases ps pm ph pd pmo burst)
      as [[_ E]|[[_ E]|[[_ E]|[[_ E]|[_ E]]]]];
      rewrite E;
      (etransitivity; [apply filter_length_le|simpl; lia]).
  - destruct (rates_of_params 0 0 0 0 0 burst) as [|r rest] eqn:E;
      [reflexivity|].
    assert (Hr : In r (rates_of_params 0 0 0 0 0 burst))
      by (rewrite E; left; reflexivity).
    apply Hin in Hr. destruct Hr as [Hl Hr]. exfalso. apply Hl.
    unfold fixed_entries in Hr. simpl in Hr.
    destruct Hr as [->|[<-|[<-|[<-|[<-|[]]]]]]; reflexivity.
Qed.

(** X3: a burst can suppress the per-second entry only.  For every burst,
    the per-minute, per-hour, per-day and per-month entries are among the
    rates exactly when their value is not zero. *)
Theorem fixed_entries_iff_nonzero (ps pm ph pd pmo burst : Z) :
  let rates := rates_of_params ps pm ph pd pmo burst in
  (In (entry_per_minute pm) rates <-> pm <> 0) /\
  (In (entry_per_hour ph) rates <-> ph <> 0) /\
  (In (entry_per_day pd) rates <-> pd <> 0) /\
  (In (entry_per_month pmo) rates <-> pmo <> 0).
Proof.
  cbv zeta.
  destruct (rates_cases ps pm ph pd pmo burst)
    as [[_ E]|[[_ E]|[[_ E]|[[_ E]|[_ E]]]]];
    rewrite E; rewrite !In_filter_nonzero; simpl; tauto.
Qed.

(** X4: for a burst of at most 60 (the default 1 included) the rates come
    out in strictly ascending order of interval, so the filler's
    [rates[0]] is the rate with the smallest interval. *)
Theorem rates_ascending_small_burst (ps pm ph pd pmo burst : Z) :
  burst <= 60 ->
  StronglySorted shorter (rates_of_params ps pm ph pd pmo burst) /\
  ascending (rates_of_params ps pm ph pd pmo burst).
Proof.
  intros Hb.
  assert (Hs : StronglySorted shorter (rates_of_params ps pm ph pd pmo burst)).
  { destruct (rates_cases ps pm ph pd pmo burst)
      as [[Hk E]|[[Hk E]|[[Hk E]|[[Hk E]|[Hc E]]]]];
      try lia; rewrite E; apply StronglySorted_filter_shorter;
      unfold_durations;
      repeat (constructor; [|repeat (constructor; [cbn; lia|]); constructor]);
      constructor. }
  split; [exact Hs|apply StronglySorted_ascending; exact Hs].
Qed.

Lemma rates_ascending_small_burst_witness :
  rates_of_params 5 100 0 0 10000 2
  = [ mkRequestRate 10 2; mkRequestRate 100 60; mkRequestRate 10000 2592000 ] /\
  ascending (rates_of_params 5 100 0 0 10000 2).
Proof.
  split; [reflexivity|].
  destruct (rates_ascending_small_burst 5 100 0 0 10000 2) as [_ H]; [lia|exact H].
Defined.

(** X5: for a burst above 60 that meets no fixed interval, non-zero
    [per_second] and [per_minute] give rates that start with the
    per-second entry, whose interval is longer than the per-minute one
    right behind it: the rates are not ascending and the filler's
    [rates[0]] is not the rate with the smallest interval. *)
Theorem rates_not_ascending_large_burst (ps pm ph pd pmo burst : Z) :
  60 < burst ->
  no_interval_clash burst ->
  ps <> 0 ->
  pm <> 0 ->
  rates_of_params ps pm ph pd pmo burst
  = entry_per_second ps burst :: entry_per_minute pm
    :: List.filter nonzero_limit
         [ entry_per_hour ph; entry_per_day pd; entry_per_month pmo ] /\
  interval (entry_per_minute pm) < interval (entry_per_second ps burst) /\
  ~ ascending (rates_of_params ps pm ph pd pmo burst).
Proof.
  intros Hb Hclash Hps Hpm.
  assert (E : rates_of_params ps pm ph pd pmo burst
              = entry_per_second ps burst :: entry_per_minute pm
                :: List.filter nonzero_limit
                     [ entry_per_hour ph; entry_per_day pd; entry_per_month pmo ]).
  { rewrite (rates_no_clash ps pm ph pd pmo burst Hclash).
    cbn [List.filter entry_per_second entry_per_minute limit].
    assert (H1 : truthy (ps * burst) = true) by (apply truthy_true; nia).
    assert (H2 : truthy pm = true) by (apply truthy_true; exact Hpm).
    rewrite H1, H2. reflexivity. }
  assert (Hlt : interval (entry_per_minute pm) < interval (entry_per_second ps burst))
    by (unfold_durations; lia).
  split; [exact E|]. split; [exact Hlt|].
  intros Hasc. rewrite E in Hasc.
  specialize (Hasc 0%nat 1%nat (entry_per_second ps burst) (entry_per_minute pm)
                ltac:(lia) eq_refl eq_refl).
  lia.
Qed.

Lemma rates_not_ascending_large_burst_witness :
  rates_of_params 5 100 0 0 0 120
  = [ mkRequestRate 600 120; mkRequestRate 100 60 ] /\
  ~ ascending (rates_of_params 5 100 0 0 0 120).
Proof.
  split; [reflexivity|].
  destruct (rates_not_ascending_large_burst 5 100 0 0 0 120) as (_ & _ & H).
  - lia.
  - unfold no_interval_clash. vm_compute. repeat split; discriminate.
  - lia.
  - lia.
  - exact H.
Defined.

(** ** More on the catch-up filler *)

Section FillerEdges.

Variable urlparse : string -> ParseResult.


Lemma window_count_filled (bucket : list Z) (now : Z) (rate : RequestRate) :
  window_count
    (bucket ++ repeat now (Z.to_nat (limit rate - window_count bucket now rate)))
    now rate
  = if 0 <? interval rate
    then Z.max (window_count bucket now rate) (limit rate)
    else window_count bucket now rate.
Proof.
  unfold window_count.
  rewrite events_in_window_app, events_in_window_repeat, length_app.
  destruct (Z.ltb_spec (now - interval rate) now) as [H|H];
    destruct (Z.ltb_spec 0 (interval rate)) as [H'|H']; try lia.
  - rewrite repeat_length. lia.
  - simpl. lia.
Qed.

(** X7: a run of the filler leaves the bucket with [max(c, L)] events in
    the window when the interval of the first rate is positive, so a
    second run right after it changes no bucket: repeated 429 responses do
    not pile up.  With an interval that is not positive the inserted
    events never count, and the window still holds [c] events. *)
Theorem fill_reaches_limit (self : LimiterMixin) (request : PreparedRequest)
    (w : World) (rate : RequestRate) (rest : list RequestRate) (bucket : list Z) :
  _rates (limiter w) = rate :: rest ->
  bucket_group (limiter w) !! _bucket_name urlparse self request = Some bucket ->
  let now := time_function (limiter w) in
  let c := window_count bucket now rate in
  let w' := snd (_fill_bucket urlparse self request w) in
  (exists bucket',
     bucket_group (limiter w') !! _bucket_name urlparse self request = Some bucket' /\
     window_count bucket' now rate
     = if 0 <? interval rate then Z.max c (limit rate) else c) /\
  (0 < interval rate ->
   limiter (snd (_fill_bucket urlparse self request w')) = limiter w').
Proof.
  intros Hr Hb now c w'.
  pose proof (_fill_bucket_runs urlparse self request w rate rest bucket Hr Hb)
    as Hrun.
  fold now in Hrun. change (Z.of_nat (length (events_in_window bucket now (interval rate))))
    with c in Hrun.
  assert (Hw' : w'
                = {| limiter :=
                       set_bucket (_bucket_name urlparse self request)
                         (bucket ++ repeat now (Z.to_nat (limit rate - c)))
                         (limiter w);
                     wire := wire w;
                     log := log w ++ [fill_message request] |})
    by (unfold w'; rewrite Hrun; reflexivity).
  split.
  - exists (bucket ++ repeat now (Z.to_nat (limit rate - c))). split.
    + rewrite Hw'. cbn [limiter set_bucket bucket_group]. apply lookup_insert_eq.
    + apply window_count_filled.
  - intros Hpos.
    pose proof (window_count_filled bucket now rate) as Hfilled. fold c in Hfilled.
    assert (Hlt : (0 <? interval rate) = true) by (apply Z.ltb_lt; exact Hpos).
    rewrite Hlt in Hfilled.
    rewrite (_fill_bucket_runs urlparse self request w' rate rest
               (bucket ++ repeat now (Z.to_nat (limit rate - c)))).
    + cbn [snd limiter]. rewrite Hw'. cbn [limiter set_bucket time_function clock
        _rates bucket_class time_function_arg bucket_group].
      fold (time_function (limiter w)). fold now.
      fold (window_count (bucket ++ repeat now (Z.to_nat (limit rate - c))) now rate).
      rewrite Hfilled.
      replace (Z.to_nat (limit rate - Z.max c (limit rate))) with 0%nat by lia.
      simpl repeat. rewrite app_nil_r. unfold set_bucket.
      cbn [_rates bucket_class time_function_arg bucket_group clock].
      rewrite insert_insert_eq. reflexivity.
    + rewrite Hw'. exact Hr.
    + rewrite Hw'. cbn [limiter set_bucket bucket_group]. apply lookup_insert_eq.
Qed.

End FillerEdges.


Lemma fill_reaches_limit_witness :
  bucket_group
    (limiter
       (snd (_fill_bucket ref_urlparse (example_mixin true None)
               (example_request "https://example.com/x")
               (snd (_fill_bucket ref_urlparse (example_mixin true None)
                       (example_request "https://example.com/x")
                       (example_world
                          (example_limiter [mkRequestRate 5 60]
                             [("example.com", [10; 20; 30; 70])] 75)))))))
  !! "example.com"
  = Some [10; 20; 30; 70; 75; 75].
Proof.
  destruct (fill_reaches_limit ref_urlparse (example_mixin true None)
              (example_request "https://example.com/x")
              (example_world
                 (example_limiter [mkRequestRate 5 60]
                    [("example.com", [10; 20; 30; 70])] 75))
              (mkRequestRate 5 60) [] [10; 20; 30; 70])
    as [_ H].
  - reflexivity.
  - vm_compute. reflexivity.
  - rewrite H; [vm_compute; reflexivity|simpl; lia].
Defined.

(** ** From the constructor to the filler *)

Section ConstructedRates.

Variable urlparse : string -> ParseResult.

(** X8: the example of the filler's docstring, in general.  Built with
    [per_minute] alone among the second and minute parameters (and a
    burst that is not HOUR, DAY or MONTH), the limiter has the per-minute
    rate first, and a run of the filler brings the events of the last
    minute up to [per_minute]: with 60 per minute and 40 requests tracked,
    20 are added. *)
Theorem init_per_minute_fill (pm ph pd pmo burst : Z) (bc : BucketClass)
    (tf : option TimeFunction) (md : option Z) (host : bool) (statuses : list Z)
    (uuid : string) (t0 : Z) :
  pm <> 0 ->
  burst <> Duration.HOUR ->
  burst <> Duration.DAY ->
  burst <> Duration.MONTH ->
  let l0 := snd (__init__ 0 pm ph pd pmo burst bc tf None md host statuses uuid t0) in
  _rates l0
  = entry_per_minute pm
    :: List.filter nonzero_limit
         [ entry_per_hour ph; entry_per_day pd; entry_per_month pmo ] /\
  bucket_group l0 = ∅ /\
  forall self request w (bucket : list Z),
    _rates (limiter w) = _rates l0 ->
    bucket_group (limiter w) !! _bucket_name urlparse self request = Some bucket ->
    let now := time_function (limiter w) in
    let c := Z.of_nat (length (events_in_window bucket now Duration.MINUTE)) in
    fst (_fill_bucket urlparse self request w) = inr tt /\
    bucket_group (limiter (snd (_fill_bucket urlparse self request w)))
    !! _bucket_name urlparse self request
    = Some (bucket ++ repeat now (Z.to_nat (pm - c))).
Proof.
  intros Hpm Hh Hd Hm l0.
  assert (Hrates : _rates l0
                   = entry_per_minute pm
                     :: List.filter nonzero_limit
                          [ entry_per_hour ph; entry_per_day pd;
                            entry_per_month pmo ]).
  { unfold l0, __init__, new_Limiter. cbn [snd _rates].
    assert (Ht : nonzero_limit (entry_per_minute pm) = true)
      by (apply truthy_true; exact Hpm).
    destruct (rates_cases 0 pm ph pd pmo burst)
      as [[Hk E]|[[Hk E]|[[Hk E]|[[Hk E]|[Hc E]]]]];
      try (exfalso; unfold Duration.HOUR, Duration.DAY, Duration.MONTH in *; lia);
      rewrite E; cbn [List.filter]; rewrite Ht; [reflexivity|].
    unfold nonzero_limit at 1, entry_per_second. cbn [limit].
    rewrite Z.mul_0_l. reflexivity. }
  split; [exact Hrates|]. split; [reflexivity|].
  intros self request w bucket Hr Hb now c. rewrite Hrates in Hr.
  rewrite (_fill_bucket_runs urlparse self request w _ _ bucket Hr Hb).
  cbn [fst snd limiter set_bucket bucket_group].
  split; [reflexivity|apply lookup_insert_eq].
Qed.

End ConstructedRates.

Lemma init_per_minute_fill_witness :
  bucket_group
    (limiter
       (snd (_fill_bucket ref_urlparse (example_mixin true None)
               (example_request "https://example.com/x")
               (example_world
                  (set_bucket "example.com" (repeat 100 40)
                     (elapse 120
                        (snd (__init__ 0 60 0 0 0 1 MemoryQueueBucket None None
                                None true [429] "u" 0))))))))
  !! "example.com"
  = Some (repeat 100 40 ++ repeat 120 20).
Proof.
  destruct (init_per_minute_fill ref_urlparse 60 0 0 0 1 MemoryQueueBucket None
              None true [429] "u" 0)
    as (_ & _ & H); try (vm_compute; discriminate).
  destruct (H (example_mixin true None) (example_request "https://example.com/x")
              (example_world
                 (set_bucket "example.com" (repeat 100 40)
                    (elapse 120
                       (snd (__init__ 0 60 0 0 0 1 MemoryQueueBucket None None
                               None true [429] "u" 0)))))
              (repeat 100 40))
    as [_ H'].
  - reflexivity.
  - vm_compute. reflexivity.
  - refine (eq_trans H' _). vm_compute. reflexivity.
Defined.

(** ** More on sending *)

Lemma ref_acquire_frame (fuel : nat) : limiter_frame (ref_acquire fuel).
Proof.
  induction fuel as [|fuel IH]; intros key md l r l' key' Hacq Hne;
    simpl in Hacq;
    destruct (full_rate (default [] (bucket_group l !! key)) (time_function l)
                (_rates l)) as [rate|] eqn:Hfull.
  - assert (Hl : l' = l)
      by (destruct md as [m|]; [destruct (m <? _)|]; congruence).
    subst l'. reflexivity.
  - inversion Hacq; subst r l'. cbn [set_bucket bucket_group].
    apply lookup_insert_ne. congruence.
  - assert (Hwait : forall r0 l0,
              ref_acquire fuel key md
                (elapse
                   (snd (inspect_expired_items (default [] (bucket_group l !! key))
                           (time_function l - interval rate))) l) = (r0, l0) ->
              bucket_group l0 !! key' = bucket_group l !! key').
    { intros r0 l0 H0. rewrite (IH _ _ _ _ _ _ H0 Hne). reflexivity. }
    destruct md as [m|].
    + destruct (m <? _).
      * inversion Hacq; subst r l'. reflexivity.
      * exact (Hwait r l' Hacq).
    + exact (Hwait r l' Hacq).
  - inversion Hacq; subst r l'. cbn [set_bucket bucket_group].
    apply lookup_insert_ne. congruence.
Qed.

Section SendEffects.

Variable urlparse : string -> ParseResult.
Variable ratelimit : string -> option Z -> Limiter -> option Exception * Limiter.
Variable super_send :
  list PreparedRequest -> PreparedRequest -> Kwargs -> (Exception + Response) * Z.


Lemma _fill_bucket_other (self : LimiterMixin) (request : PreparedRequest)
    (w : World) (key : string) :
  key <> _bucket_name urlparse self request ->
  bucket_group (limiter (snd (_fill_bucket urlparse self request w))) !! key
  = bucket_group (limiter w) !! key.
Proof.
  intros Hne. unfold _fill_bucket. cbn [limiter wire log].
  destruct (bucket_group (limiter w) !! _bucket_name urlparse self request);
    [destruct (_rates (limiter w))|]; cbn [snd limiter]; try reflexivity.
  cbn [set_bucket bucket_group]. apply lookup_insert_ne. congruence.
Qed.



Lemma send_other_bucket (self : LimiterMixin) (request : PreparedRequest)
    (kwargs : Kwargs) (w : World) (key : string) :
  limiter_frame ratelimit ->
  key <> _bucket_name urlparse self request ->
  bucket_group (limiter (snd (send urlparse ratelimit super_send self request kwargs w)))
  !! key
  = bucket_group (limiter w) !! key.
Proof.
  intros Hframe Hne. unfold send.
  destruct (ratelimit (_bucket_name urlparse self request) (max_delay self)
              (limiter w)) as [r l1] eqn:Hacq.
  pose proof (Hframe _ _ _ _ _ key Hacq Hne) as Hl1.
  destruct r as [e|]; [exact Hl1|].
  destruct (super_send (wire w) request kwargs) as [[e|response] dt];
    [exact Hl1|].
  destruct (py_in (status_code response) (limit_statuses self)); [|exact Hl1].
  pose proof (_fill_bucket_other self request
                {| limiter := elapse dt l1; wire := wire w ++ [request];
                   log := log w |} key Hne) as Hf.
  destruct (_fill_bucket urlparse self request
              {| limiter := elapse dt l1; wire := wire w ++ [request];
                 log := log w |}) as [[e|u] w2];
    cbn [snd limiter elapse bucket_group] in *; congruence.
Qed.

(** X10: buckets are independent.  With a limiter whose acquisition
    touches the bucket of its key only, a run of sends leaves the bucket
    of every key that is not the key of one of its requests as it was:
    with per-host keys, a 429 from one host fills that host's bucket
    and no other. *)
Theorem run_sends_other_buckets (self : LimiterMixin)
    (requests : list (PreparedRequest * Kwargs)) (w : World) (key : string) :
  limiter_frame ratelimit ->
  (forall rq, In rq requests -> _bucket_name urlparse self (fst rq) <> key) ->
  bucket_group (limiter (snd (run_sends urlparse ratelimit super_send self requests w)))
  !! key
  = bucket_group (limiter w) !! key.
Proof.
  intros Hframe. revert w.
  induction requests as [|[request kwargs] requests IH]; intros w Hkeys.
  - reflexivity.
  - cbn [run_sends].
    pose proof (send_other_bucket self request kwargs w key Hframe) as Hs.
    destruct (send urlparse ratelimit super_send self request kwargs w) as [r w1].
    cbn [snd] in Hs.
    assert (IH' := IH w1 ltac:(intros rq Hrq; apply Hkeys; right; exact Hrq)).
    destruct (run_sends urlparse ratelimit super_send self requests w1) as [rs w2].
    cbn [snd] in *. rewrite IH'. apply Hs.
    intros Heq. apply (Hkeys (request, kwargs)); [left; reflexivity|].
    cbn [fst]. congruence.
Qed.

End SendEffects.

Lemma run_sends_other_buckets_witness :
  bucket_group
    (limiter
       (snd (run_sends ref_urlparse ref_ratelimit (mock_transport 429 1)
               (example_mixin true (Some 5))
               [ (example_request "https://example.com/a", []);
                 (example_request "https://example.com/b", []) ]
               (example_world
                  (example_limiter [mkRequestRate 3 60]
                     [("example.org", [70])] 75)))))
  !! "example.org"
  = Some [70] /\
  bucket_group
    (limiter
       (snd (run_sends ref_urlparse ref_ratelimit (mock_transport 429 1)
               (example_mixin true (Some 5))
               [ (example_request "https://example.com/a", []);
                 (example_request "https://example.com/b", []) ]
               (example_world
                  (example_limiter [mkRequestRate 3 60]
                     [("example.org", [70])] 75)))))
  !! "example.com"
  = Some [75; 76; 76].
Proof.
  split; [|vm_compute; reflexivity].
  rewrite (run_sends_other_buckets ref_urlparse ref_ratelimit (mock_transport 429 1)
             (example_mixin true (Some 5))
             [ (example_request "https://example.com/a", []);
               (example_request "https://example.com/b", []) ]
             (example_world
                (example_limiter [mkRequestRate 3 60] [("example.org", [70])] 75))
             "example.org").
  - vm_compute. reflexivity.
  - exact (ref_acquire_frame 64).
  - intros rq [<-|[<-|[]]]; vm_compute; discriminate.
Defined.

Lemma rates_of_params_sound_witness :
  rates_of_params 0 0 0 0 0 7 = [] /\
  limit (mkRequestRate 100 60) <> 0.
Proof.
  destruct (rates_of_params_sound 5 100 0 0 0 60) as (Hin & _ & _ & _).
  destruct (rates_of_params_sound 0 0 0 0 0 7) as (_ & _ & _ & Hempty).
  split; [exact Hempty|].
  apply (Hin (mkRequestRate 100 60)). left. reflexivity.
Defined.

Lemma fixed_entries_iff_nonzero_witness :
  In (entry_per_minute 100) (rates_of_params 5 100 0 0 0 60) /\
  ~ In (entry_per_hour 0) (rates_of_params 5 100 0 0 0 60).
Proof.
  destruct (fixed_entries_iff_nonzero 5 100 0 0 0 60) as (Hm & Hh & _).
  split.
  - apply Hm. lia.
  - intros H. apply Hh in H. apply H. reflexivity.
Defined.
